(** * Black Hills lidar workflows: the job-dispatch subsystem

    A shallow embedding of

    - [src/hpc/dispatch-gridmetric-jobs.py]: the worker
      [grid_metrics_chm_worker], the ordered [dispatch] and [main];
    - [src/lib/py/vogeler/extlib.py]: [run_dill] and the streaming
      [dispatch].

    Python values are modelled as the code has them: [str] as [string]
    (code points below 256), [bytes] as [list byte], integers as [Z],
    [None] as [option]; a call that can raise returns an [outcome]; the
    file system, the environment and the clock are an explicit [world]
    threaded through the worker. *)

From Stdlib Require Import ZArith List Lia.
From Stdlib.Strings Require Import Ascii String Byte.
From stdpp Require Import base option list gmap strings pretty.

Local Open Scope Z_scope.

(** ** Python exceptions and results *)

Inductive exn : Type :=
| TypeError
| ValueError
| KeyError
| NameError
| AttributeError
| FileNotFoundError
| FileExistsError
| NotADirectoryError
| IsADirectoryError
| OtherError (msg : string).

Inductive outcome (A : Type) : Type :=
| Returned (a : A)
| Raised (e : exn).

Arguments Returned {A} a.
Arguments Raised {A} e.

Definition is_returned {A} (o : outcome A) : bool :=
  match o with Returned _ => true | Raised _ => false end.

(** Python's [bytes] and the two kinds of argument that the code passes
    to [write]. *)
Definition bytes : Type := list byte.

Inductive pyval : Type :=
| PyStr (s : string)
| PyBytes (b : bytes).

(** ** [bytes(s, 'utf8')] *)

Module Utf8.

Definition byte_of_Z (z : Z) : byte :=
  match Byte.of_N (Z.to_N (z mod 256)) with
  | Some b => b
  | None => x00
  end.

Definition Z_of_byte (b : byte) : Z := Z.of_N (Byte.to_N b).

(** One code point below 256: one byte under 128, two bytes from 128. *)
Definition encode_char (c : ascii) : bytes :=
  let n := Z.of_N (N_of_ascii c) in
  if n <? 128 then [byte_of_Z n]
  else [byte_of_Z (Z.lor 192 (Z.shiftr n 6));
        byte_of_Z (Z.lor 128 (Z.land n 63))].

Fixpoint encode (s : string) : bytes :=
  match s with
  | EmptyString => []
  | String c s' => encode_char c ++ encode s'
  end.

End Utf8.

(** ** [hashlib.sha1(...).hexdigest()] (FIPS 180-4), on 32-bit words in [Z] *)

Module Sha1.

Definition w32 (x : Z) : Z := x mod 4294967296.

Definition add32 (a b : Z) : Z := w32 (a + b).

Definition rotl (n x : Z) : Z :=
  w32 (Z.lor (Z.shiftl x n) (Z.shiftr x (32 - n))).

Definition not32 (x : Z) : Z := Z.lxor x 4294967295.

(** Big-endian bytes of [x], [n] of them. *)
Fixpoint be_bytes (n : nat) (x : Z) : list Z :=
  match n with
  | O => []
  | S n' => Z.shiftr x (8 * Z.of_nat n') mod 256 :: be_bytes n' x
  end.

(** The message, a 1 bit, zeros up to 56 mod 64, the bit length on 64 bits. *)
Definition pad (msg : bytes) : list Z :=
  let len := Z.of_nat (length msg) in
  (Utf8.Z_of_byte <$> msg) ++ [128]
    ++ replicate (Z.to_nat ((55 - len) mod 64)) 0
    ++ be_bytes 8 (8 * len).

Fixpoint words (l : list Z) : list Z :=
  match l with
  | a :: b :: c :: d :: rest =>
      (Z.shiftl a 24 + Z.shiftl b 16 + Z.shiftl c 8 + d) :: words rest
  | _ => []
  end.

Fixpoint blocks (fuel : nat) (ws : list Z) : list (list Z) :=
  match fuel, ws with
  | S fuel', _ :: _ => take 16 ws :: blocks fuel' (drop 16 ws)
  | _, _ => []
  end.

(** The message schedule, most recent word first: [rev_w] holds
    w[t-1], w[t-2], ... *)
Definition next_w (rev_w : list Z) : Z :=
  rotl 1 (Z.lxor (Z.lxor (nth 2 rev_w 0) (nth 7 rev_w 0))
                 (Z.lxor (nth 13 rev_w 0) (nth 15 rev_w 0))).

Fixpoint extend (n : nat) (rev_w : list Z) : list Z :=
  match n with
  | O => rev_w
  | S n' => extend n' (next_w rev_w :: rev_w)
  end.

Definition schedule (block : list Z) : list Z :=
  rev (extend 64 (rev block)).

Definition f (t : nat) (b c d : Z) : Z :=
  if (t <? 20)%nat then Z.lor (Z.land b c) (Z.land (not32 b) d)
  else if (t <? 40)%nat then Z.lxor (Z.lxor b c) d
  else if (t <? 60)%nat then
    Z.lor (Z.lor (Z.land b c) (Z.land b d)) (Z.land c d)
  else Z.lxor (Z.lxor b c) d.

Definition k (t : nat) : Z :=
  if (t <? 20)%nat then 1518500249
  else if (t <? 40)%nat then 1859775393
  else if (t <? 60)%nat then 2400959708
  else 3395469782.

Record state := State { ha : Z; hb : Z; hc : Z; hd : Z; he : Z }.

Definition init : state :=
  State 1732584193 4023233417 2562383102 271733878 3285377520.

Definition round (s : state) (tw : nat * Z) : state :=
  let (t, w) := tw in
  let temp :=
    add32 (add32 (add32 (add32 (rotl 5 (ha s)) (f t (hb s) (hc s) (hd s)))
                        (he s)) (k t)) w in
  State temp (ha s) (rotl 30 (hb s)) (hc s) (hd s).

Definition compress (h : state) (block : list Z) : state :=
  let s := foldl round h (imap (fun t w => (t, w)) (schedule block)) in
  State (add32 (ha h) (ha s)) (add32 (hb h) (hb s)) (add32 (hc h) (hc s))
        (add32 (hd h) (hd s)) (add32 (he h) (he s)).

Definition sha1 (msg : bytes) : state :=
  let ws := words (pad msg) in
  foldl compress init (blocks (length ws) ws).

Definition hex_digit (n : Z) : ascii :=
  ascii_of_N (Z.to_N (if n <? 10 then 48 + n else 87 + n)).

Fixpoint hex (digits : nat) (x : Z) : string :=
  match digits with
  | O => EmptyString
  | S d => String (hex_digit (Z.shiftr x (4 * Z.of_nat d) mod 16)) (hex d x)
  end.

Definition hexdigest (s : state) : string :=
  hex 8 (ha s) +:+ hex 8 (hb s) +:+ hex 8 (hc s) +:+ hex 8 (hd s)
    +:+ hex 8 (he s).

End Sha1.

(** ** The world a worker runs in *)

(** A path is the list of its components below the working directory
    (every [Path] of the script is built from ["./..."] and resolved). *)
Definition path : Type := list string.

Inductive node : Type :=
| Dir
| File (content : bytes).

Record datetime : Type := Datetime {
  year : nat; month : nat; day : nat; hour : nat; minute : nat
}.

(** [fs]: the file system; [environ]: [os.environ]; [ticks]: how many
    times the clock has been read; [open_files]: for each file open
    through a Python [BufferedWriter], the bytes written but not yet
    flushed. *)
Record world : Type := World {
  fs : gmap path node;
  environ : gmap string string;
  ticks : nat;
  open_files : gmap path bytes
}.

Definition set_fs (w : world) (fs' : gmap path node) : world :=
  World fs' (environ w) (ticks w) (open_files w).

Definition set_open_files (w : world) (o : gmap path bytes) : world :=
  World (fs w) (environ w) (ticks w) o.

(** What [subprocess.run] hands back, with what the process did: its
    exit code, its combined standard output and error, and the file
    system it leaves (its own artifacts; its output is appended to the
    file it was given by [sp_run] below). *)
Record CompletedProcess : Type := Completed {
  returncode : Z;
  output : bytes;
  artifacts : gmap path node
}.

(** State and exceptions: a computation runs in a world and returns or
    raises, leaving a world. *)
Definition M (A : Type) : Type := world -> outcome A * world.

Definition ret {A} (a : A) : M A := fun w => (Returned a, w).

Definition bind {A B} (m : M A) (k : A -> M B) : M B :=
  fun w =>
    match m w with
    | (Returned a, w') => k a w'
    | (Raised e, w') => (Raised e, w')
    end.

Notation "x <- m ;; k" := (bind m (fun x => k))
  (at level 100, m at next level, right associativity).
Notation "m ;;; k" := (bind m (fun _ => k))
  (at level 100, right associativity).

(** [try: body finally: cleanup]: the cleanup runs whether the body
    returns or raises, and what the body did stands unless the cleanup
    raises. *)
Definition finally {A} (body : M A) (cleanup : M unit) : M A :=
  fun w =>
    let (o, w') := body w in
    match cleanup w' with
    | (Returned _, w'') => (o, w'')
    | (Raised e, w'') => (Raised e, w'')
    end.

Module Fs.

Definition parent (p : path) : path := removelast p.

Definition is_dir (m : gmap path node) (p : path) : bool :=
  match p with
  | [] => true
  | _ => match m !! p with Some Dir => true | _ => false end
  end.

(** [Path.exists()] *)
Definition exists_ (m : gmap path node) (p : path) : bool :=
  match p with
  | [] => true
  | _ => match m !! p with Some _ => true | None => false end
  end.

Definition content (m : gmap path node) (p : path) : bytes :=
  match m !! p with Some (File c) => c | _ => [] end.

(** A write through a descriptor opened for appending. *)
Definition append (p : path) (b : bytes) (m : gmap path node)
  : gmap path node :=
  <[p := File (content m p ++ b)]> m.

(** What stops [os.mkdir] or [open] at the parent of [p]. *)
Definition parent_error (m : gmap path node) (p : path) : option exn :=
  if is_dir m (parent p) then None
  else if exists_ m (parent p) then Some NotADirectoryError
  else Some FileNotFoundError.

End Fs.

(** [Path.mkdir(exist_ok=True)], without [parents=True]: an existing
    directory is accepted, an existing file is not, and a missing parent
    is an error. *)
Definition mkdir_exist_ok (p : path) : M unit :=
  fun w =>
    match fs w !! p with
    | Some Dir => (Returned tt, w)
    | Some (File _) => (Raised FileExistsError, w)
    | None =>
        match Fs.parent_error (fs w) p with
        | Some e => (Raised e, w)
        | None => (Returned tt, set_fs w (<[p := Dir]> (fs w)))
        end
    end.

(** [Path.exists()] *)
Definition path_exists (p : path) : M bool :=
  fun w => (Returned (Fs.exists_ (fs w) p), w).

(** [os.environ[name]] *)
Definition getenv (name : string) : M string :=
  fun w =>
    match environ w !! name with
    | Some v => (Returned v, w)
    | None => (Raised KeyError, w)
    end.

(** The file object that [Path.open('ab')] returns, named by its path. *)
Record BufferedWriter : Type := Writer { name : path }.

(** [Path.open('ab')]: the file is created when missing; nothing is
    truncated. *)
Definition open_ab (p : path) : M BufferedWriter :=
  fun w =>
    match fs w !! p with
    | Some Dir => (Raised IsADirectoryError, w)
    | Some (File _) =>
        (Returned (Writer p), set_open_files w (<[p := []]> (open_files w)))
    | None =>
        match Fs.parent_error (fs w) p with
        | Some e => (Raised e, w)
        | None =>
            (Returned (Writer p),
             World (<[p := File []]> (fs w)) (environ w) (ticks w)
                   (<[p := []]> (open_files w)))
        end
    end.

(** [f.write(v)] on a binary file: bytes go to the buffer, a [str] is a
    [TypeError]. *)
Definition write (f : BufferedWriter) (v : pyval) : M Z :=
  fun w =>
    match v with
    | PyStr _ => (Raised TypeError, w)
    | PyBytes b =>
        match open_files w !! name f with
        | None => (Raised ValueError, w)
        | Some buf =>
            (Returned (Z.of_nat (length b)),
             set_open_files w (<[name f := buf ++ b]> (open_files w)))
        end
    end.

(** [f.flush()]: the buffer reaches the file, at its end. *)
Definition flush (f : BufferedWriter) : M unit :=
  fun w =>
    match open_files w !! name f with
    | None => (Raised ValueError, w)
    | Some buf =>
        (Returned tt,
         World (Fs.append (name f) buf (fs w)) (environ w) (ticks w)
               (<[name f := []]> (open_files w)))
    end.

(** [f.close()]: flush, then give the descriptor back; closing twice is
    allowed. *)
Definition close (f : BufferedWriter) : M unit :=
  fun w =>
    match open_files w !! name f with
    | None => (Returned tt, w)
    | Some buf =>
        (Returned tt,
         World (Fs.append (name f) buf (fs w)) (environ w) (ticks w)
               (delete (name f) (open_files w)))
    end.

(** [with p.open('ab') as f: body] *)
Definition with_open_ab {A} (p : path) (body : BufferedWriter -> M A) : M A :=
  f <- open_ab p ;; finally (body f) (close f).

(** [str(rc)] for an exit code or [None], as an f-string prints it. *)
Definition str_rc (rc : option Z) : string :=
  match rc with
  | None => "None"
  | Some z => pretty z
  end.

Definition pad2 (n : nat) : string :=
  if (n <? 10)%nat then "0" +:+ pretty n else pretty n.

Definition pad4 (n : nat) : string :=
  if (n <? 10)%nat then "000" +:+ pretty n
  else if (n <? 100)%nat then "00" +:+ pretty n
  else if (n <? 1000)%nat then "0" +:+ pretty n
  else pretty n.

(** [strftime("%Y-%m-%d %H:%M")] *)
Definition strftime (d : datetime) : string :=
  pad4 (year d) +:+ "-" +:+ pad2 (month d) +:+ "-" +:+ pad2 (day d)
    +:+ " " +:+ pad2 (hour d) +:+ ":" +:+ pad2 (minute d).

Definition join_path (p : path) : string :=
  fold_right (fun c acc => "/" +:+ c +:+ acc) "" p.

Definition TILE_BUFFER : Z := 40.

Definition SIF_PATH : path := ["bh_container.sif"%string].
Definition CTG_PATH : path := ["ctg.vpc"%string].
Definition DTM_PATH : path := ["dtm.vrt"%string].

Definition newline : string := String (ascii_of_nat 10) EmptyString.

(** ** The worker of [dispatch-gridmetric-jobs.py] *)

Section Worker.

(** The collaborators outside the program: the clock ([datetime.now()]
    at its successive readings), the working directory that
    [Path.resolve()] prefixes, and what running a command does. *)
Variable now : nat -> datetime.
Variable cwd : string.
Variable run_process :
  list string -> gmap path node -> outcome CompletedProcess.

(** [timestamp()] *)
Definition timestamp : M string :=
  fun w =>
    (Returned (strftime (now (ticks w))),
     World (fs w) (environ w) (S (ticks w)) (open_files w)).

(** [str(Path(...).resolve())] *)
Definition resolve (p : path) : string := cwd +:+ join_path p.

(** [sp.run(cmd, stdout=f, stderr=f)]: the child writes to the
    descriptor of [f], not through the buffer of [f]. *)
Definition sp_run (cmd : list string) (f : BufferedWriter)
  : M CompletedProcess :=
  fun w =>
    match run_process cmd (fs w) with
    | Raised e => (Raised e, w)
    | Returned p =>
        (Returned p, set_fs w (Fs.append (name f) (output p) (artifacts p)))
    end.

Definition poly_hash (poly_wkt : string) : string :=
  Sha1.hexdigest (Sha1.sha1 (Utf8.encode poly_wkt)).

Definition out_dir (poly_wkt : string) : path :=
  ["export"%string; poly_hash poly_wkt].

Definition done_path (poly_wkt : string) : path :=
  out_dir poly_wkt ++ ["DONE"%string].

Definition log_path (poly_wkt : string) : path :=
  out_dir poly_wkt ++ ["gen-gridmet+chms.log"%string].

Definition cmd (cpus poly_wkt : string) : list string :=
  [ "srun"; "--export=all"; "--exclusive"; "--nodes=1"; "--ntasks=1";
    "--cpus-per-task=" +:+ cpus; "--cpu-bind=cores";
    "apptainer"; "exec"; "--writable-tmpfs";
    resolve SIF_PATH;
    "/bh/04-grid-metrics/gen-gridmet+chms.R";
    "--dtm-path"; resolve DTM_PATH;
    "--max-threads"; cpus;
    resolve CTG_PATH;
    resolve (out_dir poly_wkt);
    poly_wkt;
    pretty TILE_BUFFER ]%string.

Definition log_header (poly_wkt ts : string) : string :=
  "JOB: " +:+ poly_wkt +:+ newline
    +:+ "STARTING: " +:+ ts +:+ newline +:+ newline.

Definition log_footer (ts : string) (rc : option Z) : string :=
  newline +:+ "FINISHED: " +:+ ts +:+ newline
    +:+ "EXIT CODE: " +:+ str_rc rc +:+ newline.

Definition found_done : string :=
  "Found DONE file (job already complete)" +:+ newline.

(** The body of the [with] block. *)
Definition logged_job (poly_wkt cpus : string) (log_f : BufferedWriter)
  : M (option Z) :=
  ts <- timestamp ;;
  write log_f (PyBytes (Utf8.encode (log_header poly_wkt ts))) ;;;
  flush log_f ;;;
  done <- path_exists (done_path poly_wkt) ;;
  rc <- (if done : bool
         then write log_f (PyStr found_done) ;;; ret None
         else p <- sp_run (cmd cpus poly_wkt) log_f ;;
              ret (Some (returncode p))) ;;
  ts' <- timestamp ;;
  write log_f (PyBytes (Utf8.encode (log_footer ts' rc))) ;;;
  ret rc.

Definition grid_metrics_chm_worker (poly_wkt : string) : M (option Z) :=
  mkdir_exist_ok (out_dir poly_wkt) ;;;
  cpus <- getenv "SLURM_CPUS_PER_TASK" ;;
  with_open_ab (log_path poly_wkt) (logged_job poly_wkt cpus).

End Worker.

(** ** [concurrent.futures.ProcessPoolExecutor], as the two [dispatch]
    functions use it

    A work item is a call [fn(arg)] that runs to completion in a process
    of its own. Which item finishes when is not the program's choice: a
    schedule, the list of work ids in the order the pool completes
    them, is a parameter, and leaving the [with] block
    ([shutdown(wait=True)]) completes whatever the schedule left. *)

Section Executor.

Context {J R W : Type}.

(** What [os.cpu_count()] answers on this machine. *)
Variable cpu_count : option Z.

Record WorkItem : Type := Item { fn : J -> W -> outcome R * W; arg : J }.

(** [work_items]: the submitted calls, by work id; [results]: the
    result or exception set on each finished future; [finished]: the
    work ids in the order they finished. *)
Record ProcessPool : Type := Pool {
  pool_size : Z;
  work_items : list WorkItem;
  results : gmap nat (outcome R);
  finished : list nat
}.

(** [ProcessPoolExecutor(max_workers=...)] *)
Definition ProcessPoolExecutor (max_workers : option Z)
  : outcome ProcessPool :=
  match max_workers with
  | None =>
      let n := match cpu_count with
               | Some c => if c =? 0 then 1 else c
               | None => 1
               end in
      Returned (Pool n [] ∅ [])
  | Some n =>
      if n <=? 0 then Raised ValueError else Returned (Pool n [] ∅ [])
  end.

(** The sizes that the constructor accepts. *)
Definition valid_pool_size (max_workers : option Z) : Prop :=
  match max_workers with
  | None => True
  | Some n => 1 <= n
  end.

(** [executor.submit(fn, j)]: the future is known by its work id. *)
Definition submit (p : ProcessPool) (f : J -> W -> outcome R * W) (j : J)
  : ProcessPool * nat :=
  (Pool (pool_size p) (work_items p ++ [Item f j]) (results p) (finished p),
   length (work_items p)).

(** [[executor.submit(fn, j) for j in jobs]] *)
Fixpoint submit_all (p : ProcessPool) (f : J -> W -> outcome R * W)
    (jobs : list J) : ProcessPool * list nat :=
  match jobs with
  | [] => (p, [])
  | j :: jobs' =>
      let (p1, i) := submit p f j in
      let (p2, futures) := submit_all p1 f jobs' in
      (p2, i :: futures)
  end.

(** A worker process completes work item [i], once. *)
Definition run_item (s : ProcessPool * W) (i : nat) : ProcessPool * W :=
  let (p, w) := s in
  match work_items p !! i, results p !! i with
  | Some it, None =>
      let (o, w') := fn it (arg it) w in
      (Pool (pool_size p) (work_items p) (<[i := o]> (results p))
            (finished p ++ [i]), w')
  | _, _ => s
  end.

Definition run_schedule (schedule : list nat) (s : ProcessPool * W)
  : ProcessPool * W :=
  foldl run_item s schedule.

(** [shutdown(wait=True)]: every pending work item is completed. *)
Definition shutdown_wait (s : ProcessPool * W) : ProcessPool * W :=
  run_schedule (seq 0 (length (work_items (fst s)))) s.

(** [f.result()], once the pool is through. *)
Definition result (p : ProcessPool) (f : nat) : outcome R :=
  match results p !! f with
  | Some o => o
  | None => Raised (OtherError "pending")
  end.

(** The arguments of the calls made, in the order they finished. *)
Definition invoked (p : ProcessPool) : list J :=
  omap (fun i => arg <$> work_items p !! i) (finished p).

(** *** Ordered dispatch ([dispatch-gridmetric-jobs.py]) *)

(** [[f.result() for f in futures]]: the first exception ends it. *)
Fixpoint collect (p : ProcessPool) (futures : list nat) : outcome (list R) :=
  match futures with
  | [] => Returned []
  | f :: fs =>
      match result p f with
      | Raised e => Raised e
      | Returned r =>
          match collect p fs with
          | Raised e => Raised e
          | Returned rs => Returned (r :: rs)
          end
      end
  end.

(** The pool as [dispatch] leaves it, with the futures of the jobs. *)
Definition run_pool (schedule : list nat) (executor : ProcessPool)
    (worker : J -> W -> outcome R * W) (jobs : list J) (w : W)
  : ProcessPool * list nat * W :=
  let (p1, futures) := submit_all executor worker jobs in
  let (p2, w') := shutdown_wait (run_schedule schedule (p1, w)) in
  (p2, futures, w').

Definition dispatch (schedule : list nat) (jobs : list J)
    (worker : J -> W -> outcome R * W) (max_workers : option Z) (w : W)
  : outcome (list R) * W :=
  match ProcessPoolExecutor max_workers with
  | Raised e => (Raised e, w)
  | Returned executor =>
      let '(p, futures, w') := run_pool schedule executor worker jobs w in
      (collect p futures, w')
  end.

End Executor.

Arguments WorkItem : clear implicits.
Arguments ProcessPool : clear implicits.

(** ** [vogeler/extlib.py] *)

Module Extlib.

(** The objects a module name can be bound to, as far as [dispatch]
    tells them apart: a logger, with the calls it has received, or
    anything else. *)
Inductive pyobj (J : Type) : Type :=
| PyLogger (records : list (string * J))
| PyObject.

Arguments PyLogger {J} records.
Arguments PyObject {J}.

(** The names [extlib.py] binds at import: its imports, [rbase],
    [rmethods], [MAX_WORKERS] and its functions. *)
Definition module_names : list string :=
  [ "os"; "json"; "functools"; "Path"; "ERROR"; "ProcessPoolExecutor";
    "as_completed"; "Any"; "Callable"; "Iterator"; "dill"; "pyogrio";
    "np"; "pd"; "rio"; "fillnodata"; "GeoDataFrame"; "force_2d"; "shape";
    "importr"; "rpy2_logger"; "rbase"; "rmethods"; "MAX_WORKERS";
    "run_dill"; "dispatch"; "catgdf"; "catshp"; "fill_grid_na";
    "tif_m2ft"; "update_crs_metadata"; "vpc2df";
    "get_field_and_fvs_data_from_src"; "order_df_cols_by_mean" ]%string.

Definition namespace (J : Type) : gmap string (pyobj J) :=
  list_to_map
    ((fun n => (n, if String.eqb n "rpy2_logger"
                   then PyLogger [] else PyObject)) <$> module_names).

Section Dispatch.

Context {J R W Blob : Type}.

Variable cpu_count : option Z.

(** [dill.dumps] and [dill.loads], from the [dill] package. *)
Variable dumps : (J -> W -> outcome R * W) -> outcome Blob.
Variable loads : Blob -> outcome (J -> W -> outcome R * W).

(** [MAX_WORKERS = os.cpu_count()] *)
Definition MAX_WORKERS : option Z := cpu_count.

Definition run_dill (fn : Blob) (j : J) : W -> outcome R * W :=
  fun w =>
    match loads fn with
    | Raised e => (Raised e, w)
    | Returned f => f j w
    end.

(** [log.info(msg, j)] with [log] looked up in the module. *)
Definition log_info (globals : gmap string (pyobj J)) (msg : string)
    (j : J) : outcome (gmap string (pyobj J)) :=
  match globals !! "log"%string with
  | None => Raised NameError
  | Some PyObject => Raised AttributeError
  | Some (PyLogger records) =>
      Returned (<["log"%string := PyLogger (records ++ [(msg, j)])]> globals)
  end.

Definition finished_msg : string := "Worker finished: %s".

(** What a consumer that exhausts the generator sees: the pairs
    yielded, then [StopIteration] ([None]) or an exception. *)
Record Stream : Type := Yielded {
  pairs : list (J * R);
  ending : option exn
}.

(** [as_completed(futures_jobs)] *)
Definition as_completed (p : ProcessPool J R W)
    (futures_jobs : gmap nat J) : list nat :=
  filter (fun f => is_Some (futures_jobs !! f)) (finished p).

(** The [for] loop of the generator. *)
Fixpoint drain (p : ProcessPool J R W) (futures_jobs : gmap nat J)
    (globals : gmap string (pyobj J)) (completed : list nat)
  : Stream * gmap string (pyobj J) :=
  match completed with
  | [] => (Yielded [] None, globals)
  | f :: rest =>
      match futures_jobs !! f with
      | None => (Yielded [] (Some KeyError), globals)
      | Some j =>
          match log_info globals finished_msg j with
          | Raised e => (Yielded [] (Some e), globals)
          | Returned globals' =>
              match result p f with
              | Raised e => (Yielded [] (Some e), globals')
              | Returned r =>
                  let (s, g) := drain p futures_jobs globals' rest in
                  (Yielded ((j, r) :: pairs s) (ending s), g)
              end
          end
      end
  end.

(** [{executor.submit(worker, j): j for j in jobs}] *)
Definition futures_jobs (futures : list nat) (jobs : list J)
  : gmap nat J :=
  list_to_map (zip futures jobs).

Definition dispatch (globals : gmap string (pyobj J))
    (schedule : list nat) (jobs : list J)
    (worker : J -> W -> outcome R * W) (max_workers : option Z) (w : W)
  : Stream * gmap string (pyobj J) * W :=
  match dumps worker with
  | Raised e => (Yielded [] (Some e), globals, w)
  | Returned blob =>
      let worker' := run_dill blob in
      match ProcessPoolExecutor cpu_count max_workers with
      | Raised e => (Yielded [] (Some e), globals, w)
      | Returned executor =>
          let '(p, futures, w') :=
            run_pool schedule executor worker' jobs w in
          let fj := futures_jobs futures jobs in
          (drain p fj globals (as_completed p fj), w')
      end
  end.

End Dispatch.

End Extlib.

(** ** The script [dispatch-gridmetric-jobs.py] *)

Module PyInt.

(** The code points that [int()] strips as white space. *)
Definition is_space (c : ascii) : bool :=
  let n := nat_of_ascii c in
  ((9 <=? n) && (n <=? 13) || (28 <=? n) && (n <=? 32)
   || (n =? 133) || (n =? 160))%nat.

Fixpoint lstrip (s : string) : string :=
  match s with
  | String c s' => if is_space c then lstrip s' else s
  | EmptyString => s
  end.

Fixpoint rev_string (acc s : string) : string :=
  match s with
  | EmptyString => acc
  | String c s' => rev_string (String c acc) s'
  end.

Definition strip (s : string) : string :=
  rev_string "" (lstrip (rev_string "" (lstrip s))).

Definition digit (c : ascii) : option Z :=
  let n := Z.of_nat (nat_of_ascii c) in
  if (48 <=? n) && (n <=? 57) then Some (n - 48) else None.

(** Decimal digits, single underscores allowed between two digits. *)
Fixpoint digits (acc : Z) (after_digit : bool) (s : string) : option Z :=
  match s with
  | EmptyString => if after_digit then Some acc else None
  | String c s' =>
      if Ascii.eqb c "_" then
        if after_digit then digits acc false s' else None
      else
        match digit c with
        | Some d => digits (10 * acc + d) true s'
        | None => None
        end
  end.

Definition parse (s : string) : option Z :=
  match strip s with
  | String "+" s' => digits 0 false s'
  | String "-" s' => Z.opp <$> digits 0 false s'
  | s' => digits 0 false s'
  end.

End PyInt.

(** [int(s)] for a string *)
Definition py_int (s : string) : outcome Z :=
  match PyInt.parse s with
  | Some n => Returned n
  | None => Raised ValueError
  end.

(** [MAX_WORKERS = int(os.environ['SLURM_NTASKS']) - 1] *)
Definition MAX_WORKERS (env : gmap string string) : outcome Z :=
  match env !! "SLURM_NTASKS"%string with
  | None => Raised KeyError
  | Some s =>
      match py_int s with
      | Raised e => Raised e
      | Returned n => Returned (n - 1)
      end
  end.

Inductive level : Type := INFO | WARNING | ERROR | CRITICAL.

Section Script.

Variable now : nat -> datetime.
Variable cwd : string.
Variable run_process :
  list string -> gmap path node -> outcome CompletedProcess.
Variable cpu_count : option Z.

(** [json.load] on the bytes of a file that holds a list of strings. *)
Variable json_loads : bytes -> outcome (list string).

(** [with open("./wkt.json") as f: wkt_list = json.load(f)] *)
Definition load_wkt_list (w : world) : outcome (list string) :=
  match fs w !! ["wkt.json"%string] with
  | None => Raised FileNotFoundError
  | Some Dir => Raised IsADirectoryError
  | Some (File c) => json_loads c
  end.

(** [main()], given the module constant; the records are what [log]
    received. *)
Definition main (schedule : list nat) (max_workers : Z) (w : world)
  : outcome unit * list (level * string) * world :=
  let log := [(INFO, "Starting...");
              (INFO, "Calculating grid metrics and CHMs...")]%string in
  match load_wkt_list w with
  | Raised e => (Raised e, log, w)
  | Returned wkt_list =>
      match dispatch cpu_count schedule wkt_list
              (grid_metrics_chm_worker now cwd run_process)
              (Some max_workers) w with
      | (Raised e, w') => (Raised e, log, w')
      | (Returned _, w') =>
          (Returned tt, log ++ [(INFO, "Finished"%string)], w')
      end
  end.

(** The script run as a program: the module constants, then [main()];
    an exception that nobody catches is logged by [sys.excepthook] once
    [main] has installed it and ends the process with status 1. *)
Definition script (schedule : list nat) (w : world)
  : Z * list (level * string) * world :=
  match MAX_WORKERS (environ w) with
  | Raised e => (1, [], w)
  | Returned max_workers =>
      match main schedule max_workers w with
      | (Returned _, log, w') => (0, log, w')
      | (Raised e, log, w') =>
          (1, log ++ [(CRITICAL, "Program terminating:"%string)], w')
      end
  end.

End Script.

(** ** Concrete collaborators, for running the model *)

Module Sample.

Definition now (k : nat) : datetime := Datetime 2025 6 1 12 k.

Definition cwd : string := "/scratch/bh".

(** Modelled from the spec: the external worker program
    [gen-gridmet+chms.R], which is not part of the sources. The spec
    (sections 6 and 8) has it leave a [DONE] sentinel in the job's
    directory and exit with 0; the job payload is its argument 18. *)
Definition gen_gridmet (c : list string) (m : gmap path node)
  : outcome CompletedProcess :=
  let poly_wkt := nth 18 c ""%string in
  Returned (Completed 0 (Utf8.encode "ok")
              (<[done_path poly_wkt := File []]> m)).

(** A run of the program that fails: exit code 1, no sentinel. *)
Definition failing (c : list string) (m : gmap path node)
  : outcome CompletedProcess :=
  Returned (Completed 1 (Utf8.encode "error") m).

Definition tile_a : string := "POLYGON((0 0,1 0,1 1,0 1,0 0))".
Definition tile_b : string := "POLYGON((2 2,3 2,3 3,2 3,2 2))".

(** [json.load] of the job list of the spec's scenario. *)
Definition json_loads (b : bytes) : outcome (list string) :=
  Returned [tile_a; tile_b].

(** A fresh allocation: [./export] exists and is empty, [wkt.json] is
    there, and SLURM gives two tasks of four cores. *)
Definition fresh : world :=
  World (<[ ["export"%string] := Dir ]>
           (<[ ["wkt.json"%string] := File [] ]> ∅))
        (<[ "SLURM_NTASKS"%string := "2"%string ]>
           (<[ "SLURM_CPUS_PER_TASK"%string := "4"%string ]> ∅))
        0 ∅.

(** The same directory after tile [tile_a] has been processed. *)
Definition done_a : world :=
  World (<[ done_path tile_a := File [] ]>
           (<[ out_dir tile_a := Dir ]> (fs fresh)))
        (environ fresh) 0 ∅.

(** Workers that ignore the world. *)
Definition pure_worker {J R} (f : J -> outcome R)
  : J -> unit -> outcome R * unit :=
  fun j w => (f j, w).

Definition square (n : Z) : outcome Z := Returned (n * n).

Definition fails_on_2 (n : Z) : outcome Z :=
  if n =? 2 then Raised (OtherError "boom") else Returned (n * n).

(** A serializer that does what [dill] promises, on a type of blobs
    that holds the callable itself. *)
Definition dumps {J R W} (f : J -> W -> outcome R * W)
  : outcome (J -> W -> outcome R * W) := Returned f.

Definition loads {J R W} (b : J -> W -> outcome R * W)
  : outcome (J -> W -> outcome R * W) := Returned b.


End Sample.

(** ** The data-frame and raster helpers of [vogeler/extlib.py] *)

Module Geo.

(** [assert] that fails. *)
Definition AssertionError : exn := OtherError "AssertionError".

Section Frames.

(** The rows of a frame and the values of its [crs] are those of
    [geopandas]; two [crs] values can be compared and put in a set. *)
Context {Row C : Type} `{Countable C}.

(** A [GeoDataFrame]: its rows in index order, and its [crs], which can
    be [None]. *)
Record GeoDataFrame : Type := Gdf { rows : list Row; crs : option C }.

(** [len(gdf)] *)
Definition len (gdf : GeoDataFrame) : nat := length (rows gdf).

(** [[gdf for gdf in gdf_list if len(gdf) != 0]] *)
Definition drop_empty (gdf_list : list GeoDataFrame) : list GeoDataFrame :=
  filter (fun gdf => len gdf <> 0%nat) gdf_list.

(** [len({g.crs for g in gdf_list})] *)
Definition crs_count (gdf_list : list GeoDataFrame) : nat :=
  size (list_to_set (crs <$> gdf_list) : gset (option C)).

Definition catgdf (gdf_list : list GeoDataFrame) : outcome GeoDataFrame :=
  match drop_empty gdf_list with
  | [] => Returned (Gdf [] None)
  | (g0 :: _) as gdf_list' =>
      if decide (crs_count gdf_list' = 1%nat)
      then Returned (Gdf (concat (rows <$> gdf_list')) (crs g0))
      else Raised AssertionError
  end.

(** The files that [pyogrio] reads and [to_file] writes, by name. *)
Variable Store : Type.
Variable read_dataframe : string -> Store -> outcome GeoDataFrame.
Variable to_file : GeoDataFrame -> string -> Store -> outcome Store.

(** [[pyogrio.read_dataframe(shp) for shp in src_shp_list]] *)
Fixpoint read_all (src_shp_list : list string) (st : Store)
  : outcome (list GeoDataFrame) :=
  match src_shp_list with
  | [] => Returned []
  | shp :: rest =>
      match read_dataframe shp st with
      | Raised e => Raised e
      | Returned gdf =>
          match read_all rest st with
          | Raised e => Raised e
          | Returned gdfs => Returned (gdf :: gdfs)
          end
      end
  end.

Definition catshp (src_shp_list : list string) (dst_shp : string)
    (st : Store) : outcome Store :=
  match read_all src_shp_list st with
  | Raised e => Raised e
  | Returned gdf_list =>
      match catgdf (drop_empty gdf_list) with
      | Raised e => Raised e
      | Returned gdf => to_file gdf dst_shp st
      end
  end.

End Frames.

Arguments GeoDataFrame : clear implicits.

Section Rasters.

(** The cells of an array, in any fixed order of its two or three
    dimensions; [None] is [nan]. *)
Context {A : Type}.

Definition ndarray : Type := list (option A).

(** [np.isnan(arr)] *)
Definition isnan (arr : ndarray) : list bool :=
  (fun c => match c with None => true | Some _ => false end) <$> arr.

(** [np.isnan(arr).sum()] *)
Definition nan_count (arr : ndarray) : nat :=
  length (filter (fun b => b = true) (isnan arr)).

(** [rasterio.fill.fillnodata(arr, mask, max_search_distance=...)] *)
Variable fillnodata : ndarray -> list bool -> Z -> ndarray.

(** The [while] loop runs as long as a [nan] is left; [fuel] bounds the
    number of tests of its condition, and [None] is a loop that has not
    ended within it. *)
Fixpoint fill_grid_na (fuel : nat) (arr : ndarray) (neighborhood : Z)
    (fill_all : bool) : option ndarray :=
  match fuel with
  | O => None
  | S fuel' =>
      if (nan_count arr =? 0)%nat then Some arr
      else
        let arr' := fillnodata arr (negb <$> isnan arr) neighborhood in
        if negb fill_all then Some arr'
        else fill_grid_na fuel' arr' neighborhood fill_all
  end.

End Rasters.

Arguments ndarray : clear implicits.

End Geo.

(** ** [init_logger] of [dispatch-gridmetric-jobs.py] and the root logger *)

Module Logging.

(** [logging.INFO] and the other levels, as numbers and as
    [%(levelname)s] prints them. *)
Definition levelno (l : level) : Z :=
  match l with INFO => 20 | WARNING => 30 | ERROR => 40 | CRITICAL => 50 end.

Definition levelname (l : level) : string :=
  match l with
  | INFO => "INFO" | WARNING => "WARNING" | ERROR => "ERROR"
  | CRITICAL => "CRITICAL"
  end.

(** [logging.StreamHandler()], which writes to standard error, and
    [logging.FileHandler(path, mode='a')]. *)
Inductive Handler : Type :=
| StreamHandler
| FileHandler (p : path).

(** The root logger, [logging.getLogger()]: one object for the whole
    process, with its level and its handlers in the order they were
    added. *)
Record Logger : Type := RootLogger {
  log_level : Z;
  handlers : list Handler
}.

(** The root logger of a fresh interpreter. *)
Definition root : Logger := RootLogger 30 [].

(** The process as far as logging goes: the root logger, what has been
    written on standard error, the file system and the number of
    records made (each reads the clock once). *)
Record state : Type := State {
  logger : Logger;
  stderr : bytes;
  files : gmap path node;
  made : nat
}.

Section Logging.

(** [%(asctime)s] of the record made at a reading of the clock. *)
Variable asctime : nat -> string.

(** A path argument is used when it is truthy: not [None] and not the
    empty string. *)
Definition truthy (p : option path) : bool :=
  match p with
  | Some (_ :: _) => true
  | _ => false
  end.

Definition init_logger (p : option path) (lvl : Z) (st : state)
  : outcome Logger * state :=
  (* log.setLevel(level); log.addHandler(console) *)
  let log := RootLogger lvl (handlers (logger st) ++ [StreamHandler]) in
  if truthy p then
    let file := default [] p in
    (* logging.FileHandler(path, mode='a') opens the file *)
    match files st !! file with
    | Some Dir => (Raised IsADirectoryError, State log (stderr st) (files st) (made st))
    | Some (File _) =>
        let log' := RootLogger lvl (handlers log ++ [FileHandler file]) in
        (Returned log', State log' (stderr st) (files st) (made st))
    | None =>
        match Fs.parent_error (files st) file with
        | Some e => (Raised e, State log (stderr st) (files st) (made st))
        | None =>
            let log' := RootLogger lvl (handlers log ++ [FileHandler file]) in
            (Returned log',
             State log' (stderr st) (<[file := File []]> (files st)) (made st))
        end
    end
  else (Returned log, State log (stderr st) (files st) (made st)).

(** ['%(asctime)s %(levelname)s %(message)s'] and the end of line. *)
Definition format (t : nat) (l : level) (msg : string) : bytes :=
  Utf8.encode (asctime t +:+ " " +:+ levelname l +:+ " " +:+ msg +:+ newline).

(** A handler writes the line and flushes. *)
Definition emit (line : bytes) (out : bytes * gmap path node) (h : Handler)
  : bytes * gmap path node :=
  match h with
  | StreamHandler => (fst out ++ line, snd out)
  | FileHandler p => (fst out, Fs.append p line (snd out))
  end.

(** [log.info(msg)], [log.critical(msg)], ... on the root logger. A
    record below the level of the logger is not made; a record that
    finds no handler goes to the handler of last resort, which prints
    the message of a warning or worse on standard error. *)
Definition log (l : level) (msg : string) (st : state) : state :=
  if levelno l <? log_level (logger st) then st
  else
    match handlers (logger st) with
    | [] =>
        if 30 <=? levelno l
        then State (logger st) (stderr st ++ Utf8.encode (msg +:+ newline))
               (files st) (S (made st))
        else State (logger st) (stderr st) (files st) (S (made st))
    | hs =>
        let out := foldl (emit (format (made st) l msg))
                     (stderr st, files st) hs in
        State (logger st) (fst out) (snd out) (S (made st))
    end.

End Logging.

(** How many of the handlers write on standard error, and how many on
    the file [p]. *)
Fixpoint streams (hs : list Handler) : nat :=
  match hs with
  | [] => 0
  | StreamHandler :: hs' => S (streams hs')
  | FileHandler _ :: hs' => streams hs'
  end.

Fixpoint file_handlers (p : path) (hs : list Handler) : nat :=
  match hs with
  | [] => 0
  | StreamHandler :: hs' => file_handlers p hs'
  | FileHandler q :: hs' =>
      if decide (q = p) then S (file_handlers p hs') else file_handlers p hs'
  end.

(** [k] calls of [init_logger(path, level)], whatever each one gives. *)
Definition init_logger_times (k : nat) (p : option path) (lvl : Z)
    (st : state) : state :=
  Nat.iter k (fun s => snd (init_logger p lvl s)) st.

End Logging.

(** ** What a call of the worker can do to the world

    One step of [grid_metrics_chm_worker] on job [a]: a reading of the
    clock, a change of the buffer of its own log, the creation of its
    directory, bytes appended to its log, or the external process. *)
Inductive worker_step
    (run_process : list string -> gmap path node -> outcome CompletedProcess)
    (a : string) : world -> world -> Prop :=
| step_clock w :
    worker_step run_process a w
      (World (fs w) (environ w) (S (ticks w)) (open_files w))
| step_buffer w o :
    (forall q, q <> log_path a -> o !! q = open_files w !! q) ->
    worker_step run_process a w (set_open_files w o)
| step_mkdir w :
    fs w !! out_dir a = None ->
    worker_step run_process a w (set_fs w (<[out_dir a := Dir]> (fs w)))
| step_append w b :
    worker_step run_process a w (set_fs w (Fs.append (log_path a) b (fs w)))
| step_process w c p :
    run_process c (fs w) = Returned p ->
    worker_step run_process a w
      (set_fs w (Fs.append (log_path a) (output p) (artifacts p))).

(** The characters of [hexdigest()]. *)
Definition is_lower_hex (c : ascii) : bool :=
  let n := nat_of_ascii c in
  ((48 <=? n) && (n <=? 57) || (97 <=? n) && (n <=? 102))%nat.

Fixpoint string_forallb (f : ascii -> bool) (s : string) : bool :=
  match s with
  | EmptyString => true
  | String c s' => f c && string_forallb f s'
  end.



(** * Properties *)

(** ** The pool *)

Section ExecutorFacts.

Context {J R W : Type}.

Implicit Types (p : ProcessPool J R W) (w : W) (jobs : list J).
Implicit Types (worker : J -> W -> outcome R * W).

Lemma submit_all_spec p worker jobs :
  submit_all p worker jobs
  = (Pool (pool_size p) (work_items p ++ (Item worker <$> jobs))
          (results p) (finished p),
     seq (length (work_items p)) (length jobs)).
Proof.
  revert p. induction jobs as [|j jobs IH]; intros p; simpl.
  - rewrite app_nil_r. by destruct p.
  - rewrite IH. simpl. rewrite length_app, <- app_assoc. simpl.
    by rewrite Nat.add_1_r.
Qed.

(** What stays true of a pool while work items complete: a future has
    a result exactly when its work id is in [finished], no id finishes
    twice, and every result is what the call of that work item gave in
    the state it ran in. *)
Record pool_inv p : Prop := PoolInv {
  inv_dom : forall i, is_Some (results p !! i) <-> i ∈ finished p;
  inv_nodup : NoDup (finished p);
  inv_range : forall i, i ∈ finished p -> (i < length (work_items p))%nat;
  inv_call : forall i o, results p !! i = Some o ->
    exists it w0, work_items p !! i = Some it /\ fst (fn it (arg it) w0) = o
}.

Lemma run_item_frame p w i :
  pool_size (fst (run_item (p, w) i)) = pool_size p
  /\ work_items (fst (run_item (p, w) i)) = work_items p.
Proof.
  unfold run_item.
  destruct (work_items p !! i) as [it|]; [|done].
  destruct (results p !! i); [done|].
  by destruct (fn it (arg it) w).
Qed.

Lemma run_item_inv p w i :
  pool_inv p -> pool_inv (fst (run_item (p, w) i)).
Proof.
  intros [Hdom Hnd Hrange Hcall]. unfold run_item.
  destruct (work_items p !! i) as [it|] eqn:Hit; [|by split].
  destruct (results p !! i) as [o|] eqn:Hres; [by split|].
  destruct (fn it (arg it) w) as [o w'] eqn:Hfn. simpl.
  assert (i ∉ finished p) as Hfresh.
  { intros Hin. apply Hdom in Hin. rewrite Hres in Hin. by destruct Hin. }
  split; simpl.
  - intros k. rewrite elem_of_app, list_elem_of_singleton, <- Hdom.
    destruct (decide (k = i)) as [->|Hne].
    + rewrite lookup_insert_eq. split; eauto.
    + rewrite lookup_insert_ne by done. split; [eauto | by intros [|]].
  - apply NoDup_app. split_and!; [done | | apply NoDup_singleton].
    intros k Hk ->%list_elem_of_singleton. done.
  - intros k [Hk | ->%list_elem_of_singleton]%elem_of_app; [eauto|].
    by eapply lookup_lt_Some.
  - intros k o'. destruct (decide (k = i)) as [->|Hne].
    + rewrite lookup_insert_eq. intros [= <-].
      exists it, w. by rewrite Hfn.
    + rewrite lookup_insert_ne by done. eauto.
Qed.

Lemma run_item_mono p w i k o :
  results p !! k = Some o ->
  results (fst (run_item (p, w) i)) !! k = Some o.
Proof.
  intros Hk. unfold run_item.
  destruct (work_items p !! i) as [it|]; [|done].
  destruct (results p !! i) eqn:Hres; [done|].
  destruct (fn it (arg it) w). simpl.
  rewrite lookup_insert_ne; [done|]. intros ->. congruence.
Qed.

Lemma run_item_settles p w i :
  (i < length (work_items p))%nat ->
  is_Some (results (fst (run_item (p, w) i)) !! i).
Proof.
  intros [it Hit]%lookup_lt_is_Some. unfold run_item. rewrite Hit.
  destruct (results p !! i) eqn:Hres; [simpl; rewrite Hres; eauto|].
  destruct (fn it (arg it) w). simpl. rewrite lookup_insert_eq. eauto.
Qed.

Lemma run_schedule_frame schedule p w :
  pool_size (fst (run_schedule schedule (p, w))) = pool_size p
  /\ work_items (fst (run_schedule schedule (p, w))) = work_items p.
Proof.
  revert p w. unfold run_schedule.
  induction schedule as [|i schedule IH]; intros p w; cbn [foldl]; [done|].
  destruct (run_item (p, w) i) as [p' w'] eqn:Hi.
  destruct (run_item_frame p w i) as [Hs Hw]. rewrite Hi in Hs, Hw.
  simpl in *. destruct (IH p' w') as [-> ->]. done.
Qed.

Lemma run_schedule_inv schedule p w :
  pool_inv p -> pool_inv (fst (run_schedule schedule (p, w))).
Proof.
  revert p w. unfold run_schedule.
  induction schedule as [|i schedule IH]; intros p w Hinv; cbn [foldl]; [done|].
  destruct (run_item (p, w) i) as [p' w'] eqn:Hi.
  apply IH. pose proof (run_item_inv p w i Hinv) as H.
  by rewrite Hi in H.
Qed.

Lemma run_schedule_mono schedule p w k o :
  results p !! k = Some o ->
  results (fst (run_schedule schedule (p, w))) !! k = Some o.
Proof.
  revert p w. unfold run_schedule.
  induction schedule as [|i schedule IH]; intros p w Hk; cbn [foldl]; [done|].
  destruct (run_item (p, w) i) as [p' w'] eqn:Hi.
  apply IH. pose proof (run_item_mono p w i k o Hk) as H.
  by rewrite Hi in H.
Qed.

Lemma run_schedule_settles schedule p w i :
  i ∈ schedule -> (i < length (work_items p))%nat ->
  is_Some (results (fst (run_schedule schedule (p, w))) !! i).
Proof.
  revert p w. unfold run_schedule.
  induction schedule as [|k schedule IH]; intros p w Hin Hlt; cbn [foldl].
  - by apply elem_of_nil in Hin.
  - destruct (run_item (p, w) k) as [p' w'] eqn:Hk.
    apply elem_of_cons in Hin as [->|Hin].
    + pose proof (run_item_settles p w k Hlt) as [o Ho].
      rewrite Hk in Ho. simpl in Ho.
      exists o. apply (run_schedule_mono schedule p' w' k o Ho).
    + apply IH; [done|].
      destruct (run_item_frame p w k) as [_ Hw]. rewrite Hk in Hw.
      simpl in Hw. by rewrite Hw.
Qed.

Lemma omap_lookup_seq {A B} (g : A -> B) (pre l : list A) :
  omap (fun i => g <$> (pre ++ l) !! i) (seq (length pre) (length l))
  = g <$> l.
Proof.
  revert pre. induction l as [|x l IH]; intros pre; [done|].
  cbn [length seq omap fmap list_omap list_fmap].
  rewrite list_lookup_middle by done. cbn. f_equal.
  specialize (IH (pre ++ [x])).
  rewrite length_app, Nat.add_1_r, <- app_assoc in IH. exact IH.
Qed.

(** The pool once [dispatch] has left the [with] block: every job has
    been called, once, and each future holds what its call gave. *)
Lemma run_pool_spec schedule size jobs worker w :
  exists p w',
    run_pool schedule (Pool size [] ∅ []) worker jobs w
    = (p, seq 0 (length jobs), w')
    /\ pool_size p = size
    /\ work_items p = Item worker <$> jobs
    /\ pool_inv p
    /\ forall i, (i < length jobs)%nat -> is_Some (results p !! i).
Proof.
  unfold run_pool. rewrite submit_all_spec. cbn [work_items app length].
  set (p1 := Pool _ _ _ _).
  assert (pool_inv p1) as Hinv1.
  { split; simpl.
    - intros i. rewrite lookup_empty, elem_of_nil.
      split; [by intros [] | done].
    - apply NoDup_nil_2.
    - by intros i ?%elem_of_nil.
    - intros i o. by rewrite lookup_empty. }
  pose proof (run_schedule_frame schedule p1 w) as [Hs2 Hw2].
  pose proof (run_schedule_inv schedule p1 w Hinv1) as Hinv2.
  destruct (run_schedule schedule (p1, w)) as [p2 w2]. simpl in *.
  unfold shutdown_wait. simpl.
  pose proof (run_schedule_frame (seq 0 (length (work_items p2))) p2 w2)
    as [Hs3 Hw3].
  pose proof (run_schedule_inv (seq 0 (length (work_items p2))) p2 w2 Hinv2)
    as Hinv3.
  pose proof (fun i => run_schedule_settles
                (seq 0 (length (work_items p2))) p2 w2 i) as Hall.
  destruct (run_schedule _ (p2, w2)) as [p3 w3]. simpl in *.
  exists p3, w3. split_and!; [done | congruence | congruence | done |].
  intros i Hi. apply Hall.
  - apply elem_of_seq. rewrite Hw2. unfold p1. simpl.
    rewrite length_fmap. lia.
  - rewrite Hw2. unfold p1. simpl. by rewrite length_fmap.
Qed.

Lemma pool_finished_all p jobs worker :
  work_items p = Item worker <$> jobs -> pool_inv p ->
  (forall i, (i < length jobs)%nat -> is_Some (results p !! i)) ->
  finished p ≡ₚ seq 0 (length jobs).
Proof.
  intros Hw Hinv Hall. apply NoDup_Permutation.
  - apply Hinv.
  - apply NoDup_seq.
  - intros i. rewrite elem_of_seq. split.
    + intros Hi%(inv_range _ Hinv). rewrite Hw, length_fmap in Hi. lia.
    + intros [_ Hi]. apply (inv_dom _ Hinv), Hall. lia.
Qed.

Lemma pool_invoked_all p jobs worker :
  work_items p = Item worker <$> jobs -> pool_inv p ->
  (forall i, (i < length jobs)%nat -> is_Some (results p !! i)) ->
  invoked p ≡ₚ jobs.
Proof.
  intros Hw Hinv Hall. unfold invoked.
  rewrite (pool_finished_all p jobs worker Hw Hinv Hall), Hw.
  pose proof (omap_lookup_seq arg [] (Item worker <$> jobs)) as H.
  simpl in H. rewrite length_fmap in H. rewrite H.
  rewrite <- list_fmap_compose. simpl.
  by rewrite list_fmap_id.
Qed.

Lemma pool_result_call p jobs worker i o :
  work_items p = Item worker <$> jobs -> pool_inv p ->
  results p !! i = Some o ->
  exists j w0, jobs !! i = Some j /\ fst (worker j w0) = o.
Proof.
  intros Hw Hinv Hres.
  destruct (inv_call _ Hinv i o Hres) as (it & w0 & Hit & Ho).
  rewrite Hw, list_lookup_fmap in Hit.
  destruct (jobs !! i) as [j|]; [|done].
  injection Hit as <-. eauto.
Qed.

Lemma collect_returned p futures rs :
  collect p futures = Returned rs
  <-> Forall2 (fun f r => result p f = Returned r) futures rs.
Proof.
  revert rs. induction futures as [|f futures IH]; intros rs; simpl.
  - split; [intros [= <-]; constructor | by intros ->%Forall2_nil_inv_l].
  - destruct (result p f) as [r|e] eqn:Hr.
    + destruct (collect p futures) as [rs'|e].
      * split.
        -- intros [= <-]. constructor; [done | by apply IH].
        -- intros (r' & rs'' & Hr' & Hrs & ->)%Forall2_cons_inv_l.
           apply IH in Hrs. congruence.
      * split; [done|].
        intros (r' & rs'' & Hr' & Hrs & ->)%Forall2_cons_inv_l.
        by apply IH in Hrs.
    + split; [done|].
      intros (r' & rs'' & Hr' & Hrs & ->)%Forall2_cons_inv_l. congruence.
Qed.

(** [collect] raises what the first future in list order that holds an
    exception holds. *)
Lemma collect_raised p futures e :
  collect p futures = Raised e
  <-> exists k f, futures !! k = Some f /\ result p f = Raised e
      /\ forall k' f', (k' < k)%nat -> futures !! k' = Some f' ->
           is_returned (result p f') = true.
Proof.
  induction futures as [|f futures IH]; simpl.
  - split; [done | by intros (k & f & ? & _)].
  - destruct (result p f) as [r|e'] eqn:Hr.
    + destruct (collect p futures) as [rs'|e'] eqn:Hc.
      * split; [done|]. intros (k & f' & Hk & Hf' & Hbefore).
        destruct k as [|k]; simpl in Hk; [congruence|].
        assert (Returned rs' = Raised e) as Hfalse; [|done].
        apply IH. exists k, f'. split_and!; [done..|].
        intros k' f'' Hlt. apply (Hbefore (S k')). lia.
      * split.
        -- intros [= <-]. apply proj1 in IH.
           destruct (IH eq_refl) as (k & f' & Hk & Hf' & Hbefore).
           exists (S k), f'. split_and!; [done..|].
           intros [|k'] f'' Hlt; simpl.
           ++ intros [= <-]. by rewrite Hr.
           ++ apply Hbefore. lia.
        -- intros (k & f' & Hk & Hf' & Hbefore).
           destruct k as [|k]; simpl in Hk; [congruence|].
           apply IH. exists k, f'. split_and!; [done..|].
           intros k' f'' Hlt. apply (Hbefore (S k')). lia.
    + split.
      * intros [= <-]. exists 0%nat, f. split_and!; [done..|]. lia.
      * intros (k & f' & Hk & Hf' & Hbefore).
        destruct k as [|k]; simpl in Hk; [congruence|].
        specialize (Hbefore 0%nat f ltac:(lia) eq_refl).
        by rewrite Hr in Hbefore.
Qed.

End ExecutorFacts.

(** ** Ordered dispatch *)

Section OrderedFacts.

Context {J R W : Type}.
Variable cpu_count : option Z.

Implicit Types (jobs : list J) (worker : J -> W -> outcome R * W).

Lemma dispatch_unfold schedule jobs worker n w :
  1 <= n ->
  dispatch cpu_count schedule jobs worker (Some n) w
  = (let '(p, futures, w') :=
       run_pool schedule (Pool n [] ∅ []) worker jobs w in
     (collect p futures, w')).
Proof.
  intros Hn. unfold dispatch, ProcessPoolExecutor.
  destruct (Z.leb_spec n 0); [lia | done].
Qed.

Lemma dispatch_rejects_size schedule jobs worker n w :
  n <= 0 ->
  dispatch cpu_count schedule jobs worker (Some n) w = (Raised ValueError, w).
Proof.
  intros Hn. unfold dispatch, ProcessPoolExecutor.
  destruct (Z.leb_spec n 0); [done | lia].
Qed.

(** Each future of a finished pool holds the outcome of the call on
    the job at its index. *)
Lemma finished_pool_result (p : ProcessPool J R W) jobs worker i j :
  work_items p = Item worker <$> jobs -> pool_inv p ->
  (forall i, (i < length jobs)%nat -> is_Some (results p !! i)) ->
  jobs !! i = Some j ->
  exists w0, result p i = fst (worker j w0).
Proof.
  intros Hw Hinv Hall Hj.
  destruct (Hall i) as [o Ho]; [by eapply lookup_lt_Some|].
  destruct (pool_result_call p jobs worker i o Hw Hinv Ho)
    as (j' & w0 & Hj' & <-).
  exists w0. unfold result. rewrite Ho. congruence.
Qed.


End OrderedFacts.






(** ** The script: what becomes of a failed job *)

(** C2, as amended. Once the job list is loaded and the pool size is at
    least 1, every job is called exactly once whatever its siblings do,
    and each future holds the outcome of the call on its job. When all
    calls return, [dispatch] returns their exit codes in input order,
    zero or not, and the script ends with status 0; when a call raises,
    [dispatch] raises the exception of the first such job in input
    order, after all jobs have run, and the script ends with status 1. *)
Theorem job_failure_isolated (now : nat -> datetime) (cwd : string)
    (run_process : list string -> gmap path node -> outcome CompletedProcess)
    (cpu_count : option Z) (json_loads : bytes -> outcome (list string))
    (schedule : list nat) (w : world) (n : Z) (wkt_list : list string) :
  MAX_WORKERS (environ w) = Returned n ->
  1 <= n ->
  load_wkt_list json_loads w = Returned wkt_list ->
  let worker := grid_metrics_chm_worker now cwd run_process in
  let run := script now cwd run_process cpu_count json_loads schedule w in
  exists p w',
    run_pool schedule (Pool n [] ∅ []) worker wkt_list w
    = (p, seq 0 (length wkt_list), w')
    /\ invoked p ≡ₚ wkt_list
    /\ (forall i j, wkt_list !! i = Some j ->
          exists w0, result p i = fst (worker j w0))
    /\ (forall rs,
          Forall2 (fun f r => result p f = Returned r)
                  (seq 0 (length wkt_list)) rs ->
          dispatch cpu_count schedule wkt_list worker (Some n) w
          = (Returned rs, w')
          /\ fst (fst run) = 0 /\ snd run = w')
    /\ (forall i e,
          (i < length wkt_list)%nat -> result p i = Raised e ->
          (forall i', (i' < i)%nat -> is_returned (result p i') = true) ->
          dispatch cpu_count schedule wkt_list worker (Some n) w
          = (Raised e, w')
          /\ fst (fst run) = 1 /\ snd run = w').
Proof.
  intros Hmax Hn Hload worker run.
  destruct (run_pool_spec schedule n wkt_list worker w)
    as (p & w' & Hrun & _ & Hw & Hinv & Hall).
  exists p, w'. split_and!.
  - done.
  - by eapply pool_invoked_all.
  - intros i j Hj. by eapply finished_pool_result.
  - intros rs Hrs. apply collect_returned in Hrs.
    assert (dispatch cpu_count schedule wkt_list worker (Some n) w
            = (Returned rs, w')) as Hd.
    { rewrite dispatch_unfold by done. by rewrite Hrun, Hrs. }
    split; [done|]. unfold run, script, main.
    rewrite Hmax, Hload. fold worker. by rewrite Hd.
  - intros i e Hi He Hbefore.
    assert (collect p (seq 0 (length wkt_list)) = Raised e) as Hc.
    { apply collect_raised. exists i, i. split_and!.
      - by apply lookup_seq.
      - done.
      - intros i' f' Hlt [-> _]%lookup_seq. by apply Hbefore. }
    assert (dispatch cpu_count schedule wkt_list worker (Some n) w
            = (Raised e, w')) as Hd.
    { rewrite dispatch_unfold by done. by rewrite Hrun, Hc. }
    split; [done|]. unfold run, script, main.
    rewrite Hmax, Hload. fold worker. by rewrite Hd.
Qed.

Lemma job_failure_isolated_witness :
  dispatch None [1; 0]%nat [Sample.tile_a; Sample.tile_b]
    (grid_metrics_chm_worker Sample.now Sample.cwd Sample.failing)
    (Some 1) Sample.fresh
  = (Returned [Some 1; Some 1],
     snd (script Sample.now Sample.cwd Sample.failing None
            Sample.json_loads [1; 0]%nat Sample.fresh)).
Proof.
  destruct (job_failure_isolated Sample.now Sample.cwd Sample.failing None
              Sample.json_loads [1; 0]%nat Sample.fresh 1
              [Sample.tile_a; Sample.tile_b])
    as (p & w' & Hrun & _ & _ & Hret & _).
  - reflexivity.
  - lia.
  - reflexivity.
  - assert (p = fst (fst (run_pool [1; 0]%nat (Pool 1 [] ∅ [])
                  (grid_metrics_chm_worker Sample.now Sample.cwd Sample.failing)
                  [Sample.tile_a; Sample.tile_b] Sample.fresh))) as ->
      by (by rewrite Hrun).
    destruct (Hret [Some 1; Some 1]) as (Hd & _ & Hw).
    + repeat constructor; vm_compute; reflexivity.
    + rewrite Hw. exact Hd.
Defined.

(** C2 as stated fails: both jobs of the batch exit with code 1, and
    the script, which drops the list that [dispatch] returns, still
    ends with status 0. *)
Lemma failed_jobs_status_zero :
  fst (dispatch None [1; 0]%nat [Sample.tile_a; Sample.tile_b]
         (grid_metrics_chm_worker Sample.now Sample.cwd Sample.failing)
         (Some 1) Sample.fresh)
  = Returned [Some 1; Some 1]
  /\ fst (fst (script Sample.now Sample.cwd Sample.failing None
                 Sample.json_loads [1; 0]%nat Sample.fresh)) = 0.
Proof. split; vm_compute; reflexivity. Qed.

(** ** The worker *)

Section WorkerFacts.

Variable now : nat -> datetime.
Variable cwd : string.

Implicit Types
  (run_process : list string -> gmap path node -> outcome CompletedProcess).

Lemma log_path_not_out_dir a b : log_path a <> out_dir b.
Proof. discriminate. Qed.

Lemma done_path_not_log_path a b : done_path a <> log_path b.
Proof. unfold done_path, log_path. intros H. by simplify_list_eq. Qed.

(** The worker reports a skip by returning [None], on the branch that
    first writes a [str] to its binary log: no call returns [None]. *)
Lemma worker_never_skips run_process poly_wkt w :
  fst (grid_metrics_chm_worker now cwd run_process poly_wkt w)
  <> Returned None.
Proof.
  unfold grid_metrics_chm_worker, with_open_ab, finally, logged_job.
  unfold bind, ret, write.
  repeat (case_match; simplify_eq; try done).
Qed.







Lemma content_append p b m : Fs.content (Fs.append p b m) p = Fs.content m p ++ b.
Proof. unfold Fs.append, Fs.content at 1. by rewrite lookup_insert_eq. Qed.

(** A call of the [with] body that returns has run the process, after
    the header reached the file and before the footer was written. *)
Lemma logged_job_returns run_process poly_wkt cpus f w rc w' :
  open_files w !! name f = Some [] ->
  logged_job now cwd run_process poly_wkt cpus f w = (Returned rc, w') ->
  exists p,
    run_process (cmd cwd cpus poly_wkt)
      (Fs.append (name f)
         (Utf8.encode (log_header poly_wkt (strftime (now (ticks w)))))
         (fs w))
    = Returned p
    /\ rc = Some (returncode p)
    /\ fs w' = Fs.append (name f) (output p) (artifacts p)
    /\ open_files w' !! name f
       = Some (Utf8.encode (log_footer (strftime (now (S (ticks w)))) rc)).
Proof.
  intros Hbuf.
  unfold logged_job, bind, timestamp, write, flush, path_exists, sp_run, ret.
  cbn [fst snd fs environ ticks open_files set_open_files set_fs].
  rewrite Hbuf.
  cbn [fst snd fs environ ticks open_files set_open_files set_fs app].
  rewrite lookup_insert_eq.
  destruct (Fs.exists_ _ (done_path poly_wkt)); [done|].
  cbn [fst snd fs environ ticks open_files set_open_files set_fs].
  destruct (run_process _ _) as [p|e]; [|done].
  cbn [fst snd fs environ ticks open_files set_open_files set_fs].
  rewrite lookup_insert_eq.
  cbn [fst snd fs environ ticks open_files set_open_files set_fs app].
  intros [= <- <-]. exists p.
  cbn [fst snd fs environ ticks open_files set_open_files set_fs].
  by rewrite lookup_insert_eq.
Qed.

(** X7. The log of a call that returns: what the process left of the file
    (the earlier content and the header, when it leaves the file
    alone), the output of the process, the footer; nothing is left in
    a buffer and the file is closed. *)
Lemma worker_returns_log run_process poly_wkt w rc w' :
  grid_metrics_chm_worker now cwd run_process poly_wkt w = (Returned rc, w') ->
  exists p cpus m,
    environ w !! "SLURM_CPUS_PER_TASK"%string = Some cpus
    /\ Fs.content m (log_path poly_wkt)
       = Fs.content (fs w) (log_path poly_wkt)
         ++ Utf8.encode (log_header poly_wkt (strftime (now (ticks w))))
    /\ run_process (cmd cwd cpus poly_wkt) m = Returned p
    /\ rc = Some (returncode p)
    /\ Fs.content (fs w') (log_path poly_wkt)
       = Fs.content (artifacts p) (log_path poly_wkt) ++ output p
         ++ Utf8.encode (log_footer (strftime (now (S (ticks w)))) rc)
    /\ open_files w' !! log_path poly_wkt = None.
Proof.
  unfold grid_metrics_chm_worker, bind.
  destruct (mkdir_exist_ok (out_dir poly_wkt) w) as [[[]|e] w1] eqn:Hmk;
    [|done].
  assert (environ w1 = environ w /\ ticks w1 = ticks w
          /\ Fs.content (fs w1) (log_path poly_wkt)
             = Fs.content (fs w) (log_path poly_wkt)) as (He1 & Ht1 & Hc1).
  { unfold mkdir_exist_ok in Hmk.
    destruct (fs w !! out_dir poly_wkt) as [[|c]|] eqn:Hl; simplify_eq.
    - done.
    - destruct (Fs.parent_error _ _); simplify_eq.
      cbn [fs set_fs environ ticks]. split_and!; [done..|].
      unfold Fs.content. rewrite lookup_insert_ne; [done|].
      intros H. symmetry in H. by apply log_path_not_out_dir in H. }
  unfold getenv. rewrite He1.
  destruct (environ w !! _) as [cpus|] eqn:Hcpus; [|done].
  unfold with_open_ab, bind.
  destruct (open_ab (log_path poly_wkt) w1) as [[f|e] w2] eqn:Hop; [|done].
  assert (name f = log_path poly_wkt /\ ticks w2 = ticks w1
          /\ open_files w2 !! log_path poly_wkt = Some []
          /\ Fs.content (fs w2) (log_path poly_wkt)
             = Fs.content (fs w1) (log_path poly_wkt)) as (Hf & Ht2 & Hb2 & Hc2).
  { unfold open_ab in Hop.
    destruct (fs w1 !! log_path poly_wkt) as [[|c]|] eqn:Hl; simplify_eq.
    - cbn [name ticks open_files set_open_files fs].
      by rewrite lookup_insert_eq.
    - destruct (Fs.parent_error _ _); simplify_eq.
      cbn [name ticks open_files fs]. rewrite lookup_insert_eq.
      split_and!; [done..|]. unfold Fs.content.
      by rewrite lookup_insert_eq, Hl. }
  unfold finally.
  destruct (logged_job now cwd run_process poly_wkt cpus f w2)
    as [[rc'|e] w3] eqn:Hjob;
    [|unfold close; by destruct (open_files w3 !! name f)].
  apply logged_job_returns in Hjob as (p & Hp & -> & Hfs3 & Hb3);
    [|by rewrite Hf].
  unfold close. rewrite Hb3. intros [= <- <-].
  exists p, cpus,
    (Fs.append (name f)
       (Utf8.encode (log_header poly_wkt (strftime (now (ticks w2)))))
       (fs w2)).
  split_and!.
  - done.
  - rewrite Hf, content_append, Hc2, Hc1, Ht2, Ht1. done.
  - exact Hp.
  - done.
  - cbn [fs]. rewrite Hf, content_append, Hfs3, Hf, content_append.
    rewrite <- app_assoc. by rewrite Ht2, Ht1.
  - cbn [open_files]. by rewrite Hf, lookup_delete_eq.
Qed.

(** The call on a job whose [DONE] file is there: the header is
    written and flushed, the [str] write raises, the [with] block
    closes the file, and that is all. *)
Lemma worker_skip_path run_process poly_wkt w cpus :
  fs w !! out_dir poly_wkt = Some Dir ->
  Fs.exists_ (fs w) (done_path poly_wkt) = true ->
  environ w !! "SLURM_CPUS_PER_TASK"%string = Some cpus ->
  fs w !! log_path poly_wkt <> Some Dir ->
  exists w',
    grid_metrics_chm_worker now cwd run_process poly_wkt w
    = (Raised TypeError, w')
    /\ Fs.content (fs w') (log_path poly_wkt)
       = Fs.content (fs w) (log_path poly_wkt)
         ++ Utf8.encode (log_header poly_wkt (strftime (now (ticks w))))
    /\ open_files w' !! log_path poly_wkt = None.
Proof.
  intros Hdir Hdone Hcpus Hlog.
  unfold grid_metrics_chm_worker, bind, mkdir_exist_ok, getenv.
  rewrite Hdir, Hcpus.
  unfold with_open_ab, bind, open_ab.
  assert (Fs.parent_error (fs w) (log_path poly_wkt) = None) as Hparent.
  { unfold Fs.parent_error, Fs.parent, log_path, out_dir, Fs.is_dir.
    cbn [removelast app]. unfold out_dir in Hdir. by rewrite Hdir. }
  set (header :=
         Utf8.encode (log_header poly_wkt (strftime (now (ticks w))))).
  assert (forall m o,
    Fs.exists_ m (done_path poly_wkt) = true ->
    o !! log_path poly_wkt = Some [] ->
    exists w',
      finally (logged_job now cwd run_process poly_wkt cpus
                 (Writer (log_path poly_wkt)))
              (close (Writer (log_path poly_wkt)))
              (World m (environ w) (ticks w) o)
      = (Raised TypeError, w')
      /\ Fs.content (fs w') (log_path poly_wkt)
         = Fs.content m (log_path poly_wkt) ++ header
      /\ open_files w' !! log_path poly_wkt = None) as Hbody.
  { intros m o Hm Ho.
    unfold finally, logged_job, bind, timestamp, write, flush, path_exists.
    cbn [fst snd fs environ ticks open_files set_open_files set_fs name].
    rewrite Ho.
    cbn [fst snd fs environ ticks open_files set_open_files set_fs app].
    rewrite lookup_insert_eq. fold header.
    cbn [fst snd fs environ ticks open_files set_open_files set_fs].
    assert (Fs.exists_ (Fs.append (log_path poly_wkt) header m)
              (done_path poly_wkt) = true) as ->.
    { unfold Fs.exists_, Fs.append in *. unfold done_path, out_dir in *.
      cbn [app] in *. rewrite lookup_insert_ne; [done|].
      apply not_eq_sym, (done_path_not_log_path poly_wkt poly_wkt). }
    cbn [fst snd fs environ ticks open_files set_open_files set_fs].
    unfold close.
    cbn [fst snd fs environ ticks open_files set_open_files set_fs name].
    rewrite lookup_insert_eq. eexists. split; [done|].
    cbn [fst snd fs environ ticks open_files set_open_files set_fs].
    split; [|by rewrite lookup_delete_eq].
    rewrite !content_append. by rewrite app_nil_r. }
  destruct (fs w !! log_path poly_wkt) as [[|c]|] eqn:Hl.
  - done.
  - destruct (Hbody (fs w) (<[log_path poly_wkt := []]> (open_files w)))
      as (w' & Hrun & Hc & Ho); [done | by rewrite lookup_insert_eq |].
    exists w'. unfold set_open_files. by rewrite Hrun.
  - rewrite Hparent.
    destruct (Hbody (<[log_path poly_wkt := File []]> (fs w))
                (<[log_path poly_wkt := []]> (open_files w)))
      as (w' & Hrun & Hc & Ho).
    + unfold Fs.exists_ in *. unfold done_path, out_dir in *.
      cbn [app] in *. rewrite lookup_insert_ne; [done|].
      apply not_eq_sym, (done_path_not_log_path poly_wkt poly_wkt).
    + by rewrite lookup_insert_eq.
    + exists w'. rewrite Hrun. split_and!; [done| |done].
      rewrite Hc. unfold Fs.content. by rewrite lookup_insert_eq, Hl.
Qed.

End WorkerFacts.

(** The digest agrees with [hashlib.sha1] on the standard test vectors
    and on a job descriptor. *)
Example sha1_abc :
  poly_hash "abc" = "a9993e364706816aba3e25717850c26c9cd0d89d"%string.
Proof. vm_compute. reflexivity. Qed.

Example sha1_empty :
  poly_hash "" = "da39a3ee5e6b4b0d3255bfef95601890afd80709"%string.
Proof. vm_compute. reflexivity. Qed.

Example out_dir_tile_a :
  out_dir Sample.tile_a
  = ["export"; "3ba435b4b1ca6000b9850091d18814c4305817de"]%string.
Proof. vm_compute. reflexivity. Qed.



(** C1, at the failing input: the scenario of the spec (two tiles, one
    worker slot). The first run executes both jobs, which exit with 0
    and leave their [DONE] files; the second run, on what the first one
    left, does not report the jobs as skipped: the first worker call
    raises [TypeError] on its [str] write, [dispatch] raises, and the
    script ends with status 1. *)
Theorem second_run_raises_type_error :
  let jobs := [Sample.tile_a; Sample.tile_b] in
  let worker :=
    grid_metrics_chm_worker Sample.now Sample.cwd Sample.gen_gridmet in
  let script1 :=
    script Sample.now Sample.cwd Sample.gen_gridmet None Sample.json_loads [] in
  let first := dispatch None [] jobs worker (Some 1) Sample.fresh in
  let second := dispatch None [] jobs worker (Some 1) (snd first) in
  fst first = Returned [Some 0; Some 0]
  /\ Fs.exists_ (fs (snd first)) (done_path Sample.tile_a) = true
  /\ Fs.exists_ (fs (snd first)) (done_path Sample.tile_b) = true
  /\ fst (worker Sample.tile_a (snd first)) = Raised TypeError
  /\ fst second = Raised TypeError
  /\ fst (fst (script1 Sample.fresh)) = 0
  /\ fst (fst (script1 (snd (script1 Sample.fresh)))) = 1.
Proof. vm_compute. repeat split. Qed.

(** C8, at the failing input: for a job whose [DONE] file is there the
    log receives the header and nothing more; there is no footer, and
    the call raises. The file is closed all the same. The same job in a
    fresh directory gets the header, the output of the process and the
    footer. *)
Theorem skipped_job_log_has_no_footer :
  let worker :=
    grid_metrics_chm_worker Sample.now Sample.cwd Sample.gen_gridmet in
  let skipped := worker Sample.tile_a Sample.done_a in
  let ran := worker Sample.tile_a Sample.fresh in
  fst skipped = Raised TypeError
  /\ Fs.content (fs (snd skipped)) (log_path Sample.tile_a)
     = Utf8.encode (log_header Sample.tile_a "2025-06-01 12:00")
  /\ open_files (snd skipped) !! log_path Sample.tile_a = None
  /\ fst ran = Returned (Some 0)
  /\ Fs.content (fs (snd ran)) (log_path Sample.tile_a)
     = Utf8.encode (log_header Sample.tile_a "2025-06-01 12:00")
       ++ Utf8.encode "ok"
       ++ Utf8.encode (log_footer "2025-06-01 12:01" (Some 0)).
Proof. vm_compute. repeat split. Qed.

(** ** Streaming dispatch *)

Section StreamingFacts.

Context {J R W Blob : Type}.
Variable cpu_count : option Z.
Variable dumps : (J -> W -> outcome R * W) -> outcome Blob.
Variable loads : Blob -> outcome (J -> W -> outcome R * W).

Implicit Types (p : ProcessPool J R W) (jobs : list J).
Implicit Types (globals : gmap string (Extlib.pyobj J)).

Lemma pool_allocated max_workers :
  valid_pool_size max_workers ->
  exists k,
    ProcessPoolExecutor (J:=J) (R:=R) (W:=W) cpu_count max_workers
    = Returned (Pool k [] ∅ []).
Proof.
  destruct max_workers as [n|]; simpl; intros Hn; [|eauto].
  destruct (Z.leb_spec n 0); [lia | eauto].
Qed.

Lemma run_schedule_no_items schedule p (w : W) :
  work_items p = [] -> run_schedule schedule (p, w) = (p, w).
Proof.
  intros Hnil. unfold run_schedule.
  induction schedule as [|i schedule IH]; [done|].
  cbn [foldl]. unfold run_item at 2. by rewrite Hnil, lookup_nil.
Qed.

Lemma run_pool_no_jobs schedule k (fn : J -> W -> outcome R * W) (w : W) :
  run_pool schedule (Pool k [] ∅ []) fn [] w = (Pool k [] ∅ [], [], w).
Proof.
  unfold run_pool, shutdown_wait. cbn [submit_all].
  by rewrite !run_schedule_no_items.
Qed.

(** The dictionary of the comprehension gives each future its job. *)
Lemma futures_jobs_lookup jobs first i :
  Extlib.futures_jobs (seq first (length jobs)) jobs !! (first + i)%nat
  = jobs !! i.
Proof.
  unfold Extlib.futures_jobs. revert first i.
  induction jobs as [|j jobs IH]; intros first i; [done|].
  cbn [length seq zip zip_with]. rewrite list_to_map_cons.
  destruct i as [|i].
  - by rewrite Nat.add_0_r, lookup_insert_eq.
  - rewrite lookup_insert_ne by lia.
    replace (first + S i)%nat with (S first + i)%nat by lia. apply IH.
Qed.

Lemma futures_jobs_lookup_0 jobs i :
  Extlib.futures_jobs (seq 0 (length jobs)) jobs !! i = jobs !! i.
Proof. apply (futures_jobs_lookup jobs 0 i). Qed.

Lemma as_completed_all p jobs worker :
  work_items p = Item worker <$> jobs -> pool_inv p ->
  Extlib.as_completed p (Extlib.futures_jobs (seq 0 (length jobs)) jobs)
  = finished p.
Proof.
  intros Hw Hinv. unfold Extlib.as_completed.
  assert (Forall (fun f => (f < length jobs)%nat) (finished p)) as Hlt.
  { apply Forall_forall. intros f Hf%(inv_range _ Hinv).
    by rewrite Hw, length_fmap in Hf. }
  induction Hlt as [|f fs Hf _ IH]; [done|].
  rewrite filter_cons_True, IH; [done|].
  rewrite futures_jobs_lookup_0. by apply lookup_lt_is_Some.
Qed.


(** Once a logger is bound, the loop only adds records to it. *)
Lemma drain_log_grows p fj globals records completed :
  globals !! "log"%string = Some (Extlib.PyLogger records) ->
  exists more,
    snd (Extlib.drain p fj globals completed) !! "log"%string
    = Some (Extlib.PyLogger (records ++ more)).
Proof.
  revert globals records.
  induction completed as [|f completed IH]; intros globals records Hlog.
  - exists []. by rewrite app_nil_r.
  - cbn [Extlib.drain]. destruct (fj !! f) as [j|].
    2: { exists []. by rewrite app_nil_r. }
    unfold Extlib.log_info. rewrite Hlog.
    set (globals' := <[_ := _]> globals).
    assert (globals' !! "log"%string
            = Some (Extlib.PyLogger (records ++ [(Extlib.finished_msg, j)])))
      as Hlog' by apply lookup_insert_eq.
    destruct (result p f) as [r|e].
    + destruct (IH globals' _ Hlog') as [more Hmore].
      destruct (Extlib.drain p fj globals' completed) as [s g].
      exists ((Extlib.finished_msg, j) :: more).
      simpl in *. by rewrite Hmore, <- app_assoc.
    + exists [(Extlib.finished_msg, j)]. done.
Qed.



(** What the generator amounts to once the worker is serialized and
    the pool is there: the loop over the completed futures of the
    pool that [run_pool] leaves. *)
Lemma dispatch_stream_unfold globals schedule jobs worker max_workers
    (w : W) blob :
  valid_pool_size max_workers ->
  dumps worker = Returned blob ->
  exists k p w',
    run_pool schedule (Pool k [] ∅ []) (Extlib.run_dill loads blob) jobs w
    = (p, seq 0 (length jobs), w')
    /\ Extlib.dispatch cpu_count dumps loads globals schedule jobs worker
         max_workers w
       = (Extlib.drain p (Extlib.futures_jobs (seq 0 (length jobs)) jobs)
            globals (finished p), w')
    /\ work_items p = Item (Extlib.run_dill loads blob) <$> jobs
    /\ pool_inv p
    /\ forall i, (i < length jobs)%nat -> is_Some (results p !! i).
Proof.
  intros [k Hk]%pool_allocated Hblob.
  destruct (run_pool_spec schedule k jobs (Extlib.run_dill loads blob) w)
    as (p & w' & Hrun & _ & Hw & Hinv & Hall).
  exists k, p, w'. split_and!; [done | | done..].
  unfold Extlib.dispatch. rewrite Hblob, Hk, Hrun.
  by rewrite (as_completed_all p jobs _ Hw Hinv).
Qed.



End StreamingFacts.






(** C9. For the empty job sequence, a pool size that the constructor
    accepts and a worker that [dill] can serialize, ordered [dispatch]
    returns the empty list and streaming [dispatch] ends normally
    without a pair; no call is queued or made, the world and the module
    are left as they were. *)
Theorem dispatch_no_jobs {J R W Blob : Type} (cpu_count : option Z)
    (dumps : (J -> W -> outcome R * W) -> outcome Blob)
    (loads : Blob -> outcome (J -> W -> outcome R * W))
    (globals : gmap string (Extlib.pyobj J)) (schedule : list nat)
    (worker : J -> W -> outcome R * W) (blob : Blob)
    (max_workers : option Z) (w : W) :
  valid_pool_size max_workers ->
  dumps worker = Returned blob ->
  dispatch cpu_count schedule [] worker max_workers w = (Returned [], w)
  /\ Extlib.dispatch cpu_count dumps loads globals schedule [] worker
       max_workers w
     = (Extlib.Yielded [] None, globals, w)
  /\ (forall k (fn : J -> W -> outcome R * W),
        let '(p, futures, w') := run_pool schedule (Pool k [] ∅ []) fn [] w in
        work_items p = [] /\ invoked p = [] /\ futures = [] /\ w' = w).
Proof.
  intros Hsize Hblob.
  destruct (pool_allocated (J:=J) (R:=R) (W:=W) cpu_count max_workers Hsize)
    as [k Hk].
  split_and!.
  - unfold dispatch. by rewrite Hk, run_pool_no_jobs.
  - unfold Extlib.dispatch. by rewrite Hblob, Hk, run_pool_no_jobs.
  - intros k' fn. by rewrite run_pool_no_jobs.
Qed.

Lemma dispatch_no_jobs_witness :
  dispatch None [1; 0]%nat [] (Sample.pure_worker Sample.fails_on_2)
    (Some 4) tt
  = (Returned [], tt)
  /\ Extlib.dispatch None Sample.dumps Sample.loads (Extlib.namespace Z)
       [1; 0]%nat [] (Sample.pure_worker Sample.fails_on_2) (Some 4) tt
     = (Extlib.Yielded [] None, Extlib.namespace Z, tt).
Proof.
  destruct (dispatch_no_jobs None Sample.dumps Sample.loads
              (Extlib.namespace Z) [1; 0]%nat
              (Sample.pure_worker Sample.fails_on_2)
              (Sample.pure_worker Sample.fails_on_2) (Some 4) tt)
    as (Hordered & Hstream & _).
  - simpl. lia.
  - reflexivity.
  - split; [exact Hordered | exact Hstream].
Defined.

(** C10. [extlib.py] binds no name [log]. With [log] unbound, a pool
    size that the constructor accepts and a worker that [dill] can
    serialize, streaming [dispatch] on a non-empty job list ends in
    [NameError] at the first completed job, without a pair; all jobs
    are run all the same. Once a caller has bound a logger to [log] in
    the module, the first completed job is logged instead. *)
Theorem dispatch_name_error {J R W Blob : Type} (cpu_count : option Z)
    (dumps : (J -> W -> outcome R * W) -> outcome Blob)
    (loads : Blob -> outcome (J -> W -> outcome R * W))
    (globals : gmap string (Extlib.pyobj J)) (schedule : list nat)
    (jobs : list J) (worker : J -> W -> outcome R * W) (blob : Blob)
    (max_workers : option Z) (w : W) :
  valid_pool_size max_workers ->
  dumps worker = Returned blob ->
  jobs <> [] ->
  Extlib.namespace J !! "log"%string = None
  /\ (globals !! "log"%string = None ->
      exists k p w',
        run_pool schedule (Pool k [] ∅ []) (Extlib.run_dill loads blob) jobs w
        = (p, seq 0 (length jobs), w')
        /\ invoked p ≡ₚ jobs
        /\ Extlib.dispatch cpu_count dumps loads globals schedule jobs worker
             max_workers w
           = (Extlib.Yielded [] (Some NameError), globals, w'))
  /\ (forall records,
        globals !! "log"%string = Some (Extlib.PyLogger records) ->
        exists j more,
          j ∈ jobs
          /\ snd (fst (Extlib.dispatch cpu_count dumps loads globals schedule
                         jobs worker max_workers w)) !! "log"%string
             = Some (Extlib.PyLogger
                       (records ++ (Extlib.finished_msg, j) :: more))).
Proof.
  intros Hsize Hblob Hjobs.
  destruct (dispatch_stream_unfold cpu_count dumps loads globals schedule jobs
              worker max_workers w blob Hsize Hblob)
    as (k & p & w' & Hrun & Hdisp & Hw & Hinv & Hall).
  pose proof (pool_finished_all p jobs _ Hw Hinv Hall) as Hperm.
  destruct (finished p) as [|f completed] eqn:Hfin.
  { apply Permutation_nil_l in Hperm. destruct jobs; [done | discriminate]. }
  assert (f ∈ seq 0 (length jobs)) as Hf by (rewrite <- Hperm; by left).
  apply elem_of_seq in Hf as [_ Hf]. simpl in Hf.
  destruct (lookup_lt_is_Some_2 jobs f Hf) as [j Hj].
  assert (Extlib.futures_jobs (seq 0 (length jobs)) jobs !! f = Some j) as Hfj
    by (by rewrite futures_jobs_lookup_0).
  split_and!.
  - vm_compute. reflexivity.
  - intros Hlog. exists k, p, w'. split_and!.
    + done.
    + by eapply pool_invoked_all.
    + rewrite Hdisp. cbn [Extlib.drain]. rewrite Hfj.
      unfold Extlib.log_info. by rewrite Hlog.
  - intros records Hlog. rewrite Hdisp. cbn [fst snd Extlib.drain].
    rewrite Hfj. unfold Extlib.log_info. rewrite Hlog.
    set (globals' := <[_ := _]> globals).
    assert (globals' !! "log"%string
            = Some (Extlib.PyLogger (records ++ [(Extlib.finished_msg, j)])))
      as Hlog' by apply lookup_insert_eq.
    exists j. destruct (result p f) as [r|e].
    + destruct (drain_log_grows p
                  (Extlib.futures_jobs (seq 0 (length jobs)) jobs)
                  globals' _ completed Hlog') as [more Hmore].
      destruct (Extlib.drain _ _ globals' completed) as [s g].
      exists more. split; [by eapply list_elem_of_lookup_2|].
      simpl in *. by rewrite Hmore, <- app_assoc.
    + exists []. split; [by eapply list_elem_of_lookup_2 | done].
Qed.

Lemma dispatch_name_error_witness :
  exists w',
    Extlib.dispatch None Sample.dumps Sample.loads (Extlib.namespace Z)
      [2; 0]%nat [1; 2; 3] (Sample.pure_worker Sample.square) (Some 2) tt
    = (Extlib.Yielded [] (Some NameError), Extlib.namespace Z, w').
Proof.
  destruct (dispatch_name_error None Sample.dumps Sample.loads
              (Extlib.namespace Z) [2; 0]%nat [1; 2; 3]
              (Sample.pure_worker Sample.square)
              (Sample.pure_worker Sample.square) (Some 2) tt)
    as (Hmodule & Hunbound & _).
  - simpl. lia.
  - reflexivity.
  - discriminate.
  - destruct (Hunbound Hmodule) as (k & p & w' & _ & _ & Hd).
    exists w'. exact Hd.
Defined.

(** * Further properties of the code *)

(** ** The name of a job's directory *)

Lemma string_forallb_app f a b :
  string_forallb f (a +:+ b) = string_forallb f a && string_forallb f b.
Proof.
  induction a as [|c a IH]; [done|].
  change (String c a +:+ b) with (String c (a +:+ b)).
  cbn [string_forallb]. by rewrite IH, andb_assoc.
Qed.

Lemma string_length_app a b :
  String.length (a +:+ b) = (String.length a + String.length b)%nat.
Proof.
  induction a as [|c a IH]; [done|].
  change (String c a +:+ b) with (String c (a +:+ b)).
  cbn [String.length Nat.add]. by rewrite IH.
Qed.

Lemma hex_digit_lower n :
  0 <= n < 16 -> is_lower_hex (Sha1.hex_digit n) = true.
Proof.
  intros Hn.
  assert (Forall (fun k => is_lower_hex (Sha1.hex_digit (Z.of_nat k)) = true)
                 (seq 0 16)) as Hall by (by repeat constructor).
  rewrite Forall_forall in Hall.
  rewrite <- (Z2Nat.id n) by lia. apply Hall, elem_of_seq. lia.
Qed.

Lemma hex_shape d x :
  String.length (Sha1.hex d x) = d
  /\ string_forallb is_lower_hex (Sha1.hex d x) = true.
Proof.
  induction d as [|d [IHl IHf]]; [done|]. cbn [Sha1.hex]. split.
  - cbn [String.length]. by rewrite IHl.
  - cbn [string_forallb]. rewrite IHf, hex_digit_lower; [done|].
    apply Z.mod_pos_bound. lia.
Qed.

(** X1. Whatever the descriptor holds, the name of the job's directory is
    40 characters among [0-9a-f]: it has no path separator, no dot and
    nothing of the descriptor's own text. *)
Theorem poly_hash_shape (poly_wkt : string) :
  String.length (poly_hash poly_wkt) = 40%nat
  /\ string_forallb is_lower_hex (poly_hash poly_wkt) = true.
Proof.
  unfold poly_hash, Sha1.hexdigest.
  generalize (Sha1.sha1 (Utf8.encode poly_wkt)). intros h.
  rewrite !string_length_app, !string_forallb_app.
  destruct (hex_shape 8 (Sha1.ha h)) as [-> ->].
  destruct (hex_shape 8 (Sha1.hb h)) as [-> ->].
  destruct (hex_shape 8 (Sha1.hc h)) as [-> ->].
  destruct (hex_shape 8 (Sha1.hd h)) as [-> ->].
  destruct (hex_shape 8 (Sha1.he h)) as [-> ->].
  done.
Qed.

(** ** The footprint of a worker call *)

Section WorkerSteps.

Variable now : nat -> datetime.
Variable cwd : string.
Variable run_process :
  list string -> gmap path node -> outcome CompletedProcess.
Variable a : string.

(** [m] moves the world by worker steps only, and what it returns
    satisfies [Q]. *)
Definition by_steps {A} (Q : A -> Prop) (m : M A) : Prop :=
  forall w,
    rtc (worker_step run_process a) w (snd (m w))
    /\ forall v, fst (m w) = Returned v -> Q v.

Lemma by_steps_weaken {A} (Q Q' : A -> Prop) (m : M A) :
  (forall v, Q v -> Q' v) -> by_steps Q m -> by_steps Q' m.
Proof. intros HQ Hm w. destruct (Hm w). eauto. Qed.

Lemma by_steps_ret {A} (v : A) : by_steps (fun x => x = v) (ret v).
Proof. intros w. split; [done|]. by intros v' [= <-]. Qed.

Lemma by_steps_bind {A B} (Q : A -> Prop) (Q' : B -> Prop)
    (m : M A) (k : A -> M B) :
  by_steps Q m -> (forall v, Q v -> by_steps Q' (k v)) ->
  by_steps Q' (bind m k).
Proof.
  intros Hm Hk w. unfold bind. destruct (Hm w) as [Hsteps HQ].
  destruct (m w) as [[v|e] w1]; simpl in *; [|done].
  destruct (Hk v (HQ v eq_refl) w1) as [Hsteps' HQ'].
  split; [by etrans | done].
Qed.

Lemma by_steps_finally {A} (Q : A -> Prop) (body : M A) (cleanup : M unit) :
  by_steps Q body -> by_steps (fun _ => True) cleanup ->
  by_steps Q (finally body cleanup).
Proof.
  intros Hb Hc w. unfold finally. destruct (Hb w) as [Hsteps HQ].
  destruct (body w) as [o w1]; simpl in *.
  destruct (Hc w1) as [Hsteps' _].
  destruct (cleanup w1) as [[[]|e] w2]; simpl in *;
    (split; [by etrans|]); [done | by intros].
Qed.

Lemma by_steps_mkdir : by_steps (fun _ => True) (mkdir_exist_ok (out_dir a)).
Proof.
  intros w. split; [|done]. unfold mkdir_exist_ok.
  destruct (fs w !! out_dir a) as [[|c]|] eqn:Hl; [done..|].
  destruct (Fs.parent_error _ _); [done|].
  apply rtc_once. by apply step_mkdir.
Qed.

Lemma by_steps_getenv name : by_steps (fun _ => True) (getenv name).
Proof.
  intros w. split; [|done]. unfold getenv. by destruct (environ w !! name).
Qed.

Lemma by_steps_path_exists p : by_steps (fun _ => True) (path_exists p).
Proof. intros w. by split. Qed.

Lemma by_steps_timestamp : by_steps (fun _ => True) (timestamp now).
Proof. intros w. split; [|done]. apply rtc_once, step_clock. Qed.

Lemma step_buffer_insert w b :
  worker_step run_process a w
    (set_open_files w (<[log_path a := b]> (open_files w))).
Proof. apply step_buffer. intros q Hq. by rewrite lookup_insert_ne. Qed.

Lemma by_steps_open_ab :
  by_steps (fun f => name f = log_path a) (open_ab (log_path a)).
Proof.
  intros w. unfold open_ab.
  destruct (fs w !! log_path a) as [[|c]|] eqn:Hl; [done | |].
  - split; [|by intros f [= <-]]. apply rtc_once, step_buffer_insert.
  - destruct (Fs.parent_error _ _); [done|].
    split; [|by intros f [= <-]].
    eapply rtc_l; [apply (step_append _ _ w [])|].
    eapply rtc_l; [apply (step_buffer_insert _ [])|].
    unfold Fs.append, Fs.content. rewrite Hl. done.
Qed.

Lemma by_steps_write f v :
  name f = log_path a -> by_steps (fun _ => True) (write f v).
Proof.
  intros Hf w. split; [|done]. unfold write. destruct v as [s|b]; [done|].
  destruct (open_files w !! name f); [|done].
  rewrite Hf. apply rtc_once, step_buffer_insert.
Qed.

Lemma by_steps_flush f :
  name f = log_path a -> by_steps (fun _ => True) (flush f).
Proof.
  intros Hf w. split; [|done]. unfold flush.
  destruct (open_files w !! name f) as [buf|]; [|done]. rewrite Hf.
  eapply rtc_l; [apply (step_append _ _ w buf)|].
  apply rtc_once.
  exact (step_buffer_insert (set_fs w (Fs.append (log_path a) buf (fs w))) []).
Qed.

Lemma by_steps_close f :
  name f = log_path a -> by_steps (fun _ => True) (close f).
Proof.
  intros Hf w. split; [|done]. unfold close.
  destruct (open_files w !! name f) as [buf|]; [|done]. rewrite Hf.
  eapply rtc_l; [apply (step_append _ _ w buf)|].
  apply rtc_once.
  apply (step_buffer _ _ (set_fs w _) (delete (log_path a) (open_files w))).
  intros q Hq. by rewrite lookup_delete_ne.
Qed.

Lemma by_steps_sp_run c f :
  name f = log_path a -> by_steps (fun _ => True) (sp_run run_process c f).
Proof.
  intros Hf w. split; [|done]. unfold sp_run.
  destruct (run_process c (fs w)) as [p|e] eqn:Hp; [|done].
  rewrite Hf. apply rtc_once. by apply (step_process _ _ w c p).
Qed.

(** Every call of the worker, whatever it returns or raises, moves the
    world by worker steps only. *)
Lemma worker_by_steps w :
  rtc (worker_step run_process a) w
    (snd (grid_metrics_chm_worker now cwd run_process a w)).
Proof.
  enough (by_steps (fun _ => True)
            (grid_metrics_chm_worker now cwd run_process a)) as H
    by apply H.
  unfold grid_metrics_chm_worker, with_open_ab, logged_job.
  eapply by_steps_bind; [apply by_steps_mkdir|]. intros _ _.
  eapply by_steps_bind; [apply by_steps_getenv|]. intros cpus _.
  eapply by_steps_bind; [apply by_steps_open_ab|]. intros f Hf.
  apply by_steps_finally; [|by apply by_steps_close].
  eapply by_steps_bind; [apply by_steps_timestamp|]. intros ts _.
  eapply by_steps_bind; [by apply by_steps_write|]. intros _ _.
  eapply by_steps_bind; [by apply by_steps_flush|]. intros _ _.
  eapply by_steps_bind; [apply by_steps_path_exists|]. intros done _.
  eapply (by_steps_bind (fun _ => True)).
  { destruct done.
    - eapply by_steps_bind; [by apply by_steps_write|]. intros _ _.
      eapply by_steps_weaken; [|apply by_steps_ret]. done.
    - eapply by_steps_bind; [by apply by_steps_sp_run|]. intros p _.
      eapply by_steps_weaken; [|apply by_steps_ret]. done. }
  intros rc _.
  eapply by_steps_bind; [apply by_steps_timestamp|]. intros ts' _.
  eapply by_steps_bind; [by apply by_steps_write|]. intros _ _.
  eapply by_steps_weaken; [|apply by_steps_ret]. done.
Qed.

End WorkerSteps.

(** X2. A call on job [a] leaves every path but the job's directory and log
    as it found it, provided the external process does; it never
    changes the environment nor the buffer of another open file. This
    holds for every outcome of the call, exceptions included. *)
Theorem worker_leaves_other_paths (now : nat -> datetime) (cwd : string)
    (run_process : list string -> gmap path node -> outcome CompletedProcess)
    (a : string) (w : world) (q : path) :
  q <> out_dir a ->
  q <> log_path a ->
  (forall c m p, run_process c m = Returned p -> artifacts p !! q = m !! q) ->
  let w' := snd (grid_metrics_chm_worker now cwd run_process a w) in
  fs w' !! q = fs w !! q
  /\ environ w' = environ w
  /\ open_files w' !! q = open_files w !! q.
Proof.
  intros Hdir Hlog Hproc w'. unfold w'.
  induction (worker_by_steps now cwd run_process a w) as [w0|w0 w1 w2 Hstep _ IH];
    [done|].
  destruct IH as (-> & -> & ->).
  destruct Hstep as [w0|w0 o Ho|w0 Hnone|w0 b|w0 c p Hp];
    cbn [fs environ open_files set_fs set_open_files]; split_and!; try done.
  - by apply Ho.
  - by rewrite lookup_insert_ne.
  - unfold Fs.append. by rewrite lookup_insert_ne.
  - unfold Fs.append. rewrite lookup_insert_ne by done. by eapply Hproc.
Qed.

Lemma worker_leaves_other_paths_witness :
  fs (snd (grid_metrics_chm_worker Sample.now Sample.cwd Sample.failing
             Sample.tile_a Sample.fresh)) !! ["wkt.json"%string]
  = Some (File []).
Proof.
  destruct (worker_leaves_other_paths Sample.now Sample.cwd Sample.failing
              Sample.tile_a Sample.fresh ["wkt.json"%string])
    as (Hfs & _ & _).
  - discriminate.
  - discriminate.
  - intros c m p [= <-]. reflexivity.
  - etrans; [exact Hfs | reflexivity].
Defined.

(** X3. The log is only ever appended to: when the external process leaves
    the log file alone, what the file held before the call is a prefix
    of what it holds after, whether the call returns or raises. *)
Theorem worker_log_append_only (now : nat -> datetime) (cwd : string)
    (run_process : list string -> gmap path node -> outcome CompletedProcess)
    (a : string) (w : world) :
  (forall c m p, run_process c m = Returned p ->
     artifacts p !! log_path a = m !! log_path a) ->
  Fs.content (fs w) (log_path a)
    `prefix_of` Fs.content
                  (fs (snd (grid_metrics_chm_worker now cwd run_process a w)))
                  (log_path a).
Proof.
  intros Hproc.
  induction (worker_by_steps now cwd run_process a w) as [w0|w0 w1 w2 Hstep _ IH];
    [done|].
  etrans; [|exact IH].
  destruct Hstep as [w0|w0 o Ho|w0 Hnone|w0 b|w0 c p Hp];
    cbn [fs set_fs set_open_files]; try done.
  - unfold Fs.content. rewrite lookup_insert_ne; [done|].
    apply not_eq_sym, log_path_not_out_dir.
  - rewrite content_append. by apply prefix_app_r.
  - rewrite content_append. apply prefix_app_r.
    unfold Fs.content. by rewrite (Hproc c _ p Hp).
Qed.

Lemma worker_log_append_only_witness :
  Fs.content (fs Sample.done_a) (log_path Sample.tile_a)
    `prefix_of` Fs.content
                  (fs (snd (grid_metrics_chm_worker Sample.now Sample.cwd
                              Sample.failing Sample.tile_a Sample.done_a)))
                  (log_path Sample.tile_a).
Proof.
  apply (worker_log_append_only Sample.now Sample.cwd Sample.failing
           Sample.tile_a Sample.done_a).
  intros c m p [= <-]. reflexivity.
Defined.

(** X4. Once the log has been opened it is closed again on every path out
    of the call: a call that starts with its log not open ends with
    exactly the files open that were open before. *)
Theorem worker_closes_log (now : nat -> datetime) (cwd : string)
    (run_process : list string -> gmap path node -> outcome CompletedProcess)
    (a : string) (w : world) :
  open_files w !! log_path a = None ->
  open_files (snd (grid_metrics_chm_worker now cwd run_process a w))
  = open_files w.
Proof.
  intros Hclosed. apply map_eq. intros q.
  destruct (decide (q = log_path a)) as [->|Hq].
  - rewrite Hclosed.
    unfold grid_metrics_chm_worker, bind.
    destruct (mkdir_exist_ok (out_dir a) w) as [[[]|e] w1] eqn:Hmk.
    2: { unfold mkdir_exist_ok in Hmk.
         by repeat (case_match; simplify_eq). }
    assert (open_files w1 = open_files w) as Ho1.
    { unfold mkdir_exist_ok in Hmk. by repeat (case_match; simplify_eq). }
    unfold getenv.
    destruct (environ w1 !! _) as [cpus|]; [|cbn [snd]; by rewrite Ho1].
    unfold with_open_ab, bind.
    destruct (open_ab (log_path a) w1) as [[f|e] w2] eqn:Hop.
    2: { unfold open_ab in Hop.
         repeat (case_match; simplify_eq); cbn [snd]; by rewrite Ho1. }
    assert (name f = log_path a) as Hf.
    { unfold open_ab in Hop. by repeat (case_match; simplify_eq). }
    unfold finally.
    destruct (logged_job now cwd run_process a cpus f w2) as [o w3].
    unfold close. rewrite Hf.
    destruct (open_files w3 !! log_path a) eqn:Hb; cbn [snd open_files].
    + apply lookup_delete_eq.
    + done.
  - clear Hclosed.
    induction (worker_by_steps now cwd run_process a w)
      as [w0|w0 w1 w2 Hstep _ IH]; [done|].
    rewrite IH.
    destruct Hstep as [w0|w0 o Ho|w0 Hnone|w0 b|w0 c p Hp];
      cbn [open_files set_fs set_open_files]; auto.
Qed.

Lemma worker_closes_log_witness :
  open_files (snd (grid_metrics_chm_worker Sample.now Sample.cwd
                     Sample.gen_gridmet Sample.tile_a Sample.done_a))
  = open_files Sample.done_a.
Proof.
  apply (worker_closes_log Sample.now Sample.cwd Sample.gen_gridmet
           Sample.tile_a Sample.done_a).
  vm_compute. reflexivity.
Defined.

(** X5. Without [./export] nothing happens: [mkdir] is not asked to make
    parents, so the call raises [FileNotFoundError] before it has
    created a directory or a log, read the clock or started a process. *)
Theorem worker_needs_export (now : nat -> datetime) (cwd : string)
    (run_process : list string -> gmap path node -> outcome CompletedProcess)
    (a : string) (w : world) :
  Fs.exists_ (fs w) ["export"%string] = false ->
  fs w !! out_dir a = None ->
  grid_metrics_chm_worker now cwd run_process a w
  = (Raised FileNotFoundError, w).
Proof.
  intros Hexport Hdir.
  unfold grid_metrics_chm_worker, bind, mkdir_exist_ok. rewrite Hdir.
  unfold Fs.exists_ in Hexport. cbv beta iota in Hexport.
  destruct (fs w !! (["export"%string] : path)) as [n|] eqn:He;
    [discriminate|].
  unfold Fs.parent_error, Fs.parent, out_dir. cbn [removelast].
  unfold Fs.is_dir, Fs.exists_. cbv beta iota. by rewrite He.
Qed.

Lemma worker_needs_export_witness :
  grid_metrics_chm_worker Sample.now Sample.cwd Sample.gen_gridmet
    Sample.tile_a (World ∅ (environ Sample.fresh) 0 ∅)
  = (Raised FileNotFoundError, World ∅ (environ Sample.fresh) 0 ∅).
Proof.
  apply (worker_needs_export Sample.now Sample.cwd Sample.gen_gridmet
           Sample.tile_a (World ∅ (environ Sample.fresh) 0 ∅));
    vm_compute; reflexivity.
Defined.

(** X6. The job's directory is made before the environment is consulted:
    without SLURM_CPUS_PER_TASK the call raises [KeyError] and leaves
    the new, empty directory behind; no log is opened and no process is
    started. *)
Theorem worker_needs_cpus (now : nat -> datetime) (cwd : string)
    (run_process : list string -> gmap path node -> outcome CompletedProcess)
    (a : string) (w : world) :
  environ w !! "SLURM_CPUS_PER_TASK"%string = None ->
  Fs.is_dir (fs w) ["export"%string] = true ->
  fs w !! out_dir a = None ->
  grid_metrics_chm_worker now cwd run_process a w
  = (Raised KeyError, set_fs w (<[out_dir a := Dir]> (fs w))).
Proof.
  intros Hcpus Hexport Hdir.
  unfold grid_metrics_chm_worker, bind, mkdir_exist_ok. rewrite Hdir.
  unfold Fs.parent_error, Fs.parent, out_dir. cbn [removelast].
  rewrite Hexport. unfold getenv. cbn [environ set_fs]. by rewrite Hcpus.
Qed.

Lemma worker_needs_cpus_witness :
  let w := World (fs Sample.fresh) ∅ 0 ∅ in
  grid_metrics_chm_worker Sample.now Sample.cwd Sample.gen_gridmet
    Sample.tile_a w
  = (Raised KeyError, set_fs w (<[out_dir Sample.tile_a := Dir]> (fs w))).
Proof.
  apply (worker_needs_cpus Sample.now Sample.cwd Sample.gen_gridmet
           Sample.tile_a (World (fs Sample.fresh) ∅ 0 ∅)).
  - reflexivity.
  - reflexivity.
  - vm_compute; reflexivity.
Defined.

Lemma worker_returns_log_witness :
  exists p w',
    grid_metrics_chm_worker Sample.now Sample.cwd Sample.gen_gridmet
      Sample.tile_a Sample.fresh = (Returned (Some (returncode p)), w')
    /\ open_files w' !! log_path Sample.tile_a = None.
Proof.
  assert (fst (grid_metrics_chm_worker Sample.now Sample.cwd
                 Sample.gen_gridmet Sample.tile_a Sample.fresh)
          = Returned (Some 0)) as Hfst by (vm_compute; reflexivity).
  destruct (grid_metrics_chm_worker Sample.now Sample.cwd
              Sample.gen_gridmet Sample.tile_a Sample.fresh)
    as [o w'] eqn:Hrun.
  cbn [fst] in Hfst. subst o.
  destruct (worker_returns_log Sample.now Sample.cwd Sample.gen_gridmet
              Sample.tile_a Sample.fresh (Some 0) w' Hrun)
    as (p & cpus & m & _ & _ & _ & Hrc & _ & Hclosed).
  exists p, w'. split; [by rewrite <- Hrc | exact Hclosed].
Defined.

(** ** [int()] on the decimal form of an integer *)

Section IntOfStr.













End IntOfStr.


(** ** The script without a usable allocation or job list *)

(** X9. When SLURM_NTASKS is missing, is not a number or is below 2 (so
    that no worker slot is left beside the coordinator), or when
    [wkt.json] cannot be loaded, the script ends with status 1 without
    having run any job: the world is as it was and "Finished" is not
    logged. *)
Theorem script_fails_before_jobs (now : nat -> datetime) (cwd : string)
    (run_process : list string -> gmap path node -> outcome CompletedProcess)
    (cpu_count : option Z) (json_loads : bytes -> outcome (list string))
    (schedule : list nat) (w : world) :
  (forall n, MAX_WORKERS (environ w) = Returned n -> n <= 0)
  \/ is_returned (load_wkt_list json_loads w) = false ->
  let run := script now cwd run_process cpu_count json_loads schedule w in
  fst (fst run) = 1
  /\ snd run = w
  /\ (INFO, "Finished"%string) ∉ snd (fst run).
Proof.
  intros Hbad run. unfold run, script, main.
  destruct (MAX_WORKERS (environ w)) as [n|e] eqn:Hmax.
  2: { split_and!; [done..|]. apply not_elem_of_nil. }
  destruct (load_wkt_list json_loads w) as [wkt_list|e] eqn:Hload.
  2: { split_and!; [done..|]. cbn [fst snd app].
       rewrite !elem_of_cons, elem_of_nil. intros [?|[?|[?|[]]]]; discriminate. }
  destruct Hbad as [Hn|Hl]; [|done].
  rewrite dispatch_rejects_size by (by apply Hn).
  split_and!; [done..|]. cbn [fst snd app].
  rewrite !elem_of_cons, elem_of_nil. intros [?|[?|[?|[]]]]; discriminate.
Qed.

Lemma script_fails_before_jobs_witness :
  let w := World (fs Sample.fresh)
             (<["SLURM_NTASKS"%string := "1"%string]> (environ Sample.fresh))
             0 ∅ in
  fst (fst (script Sample.now Sample.cwd Sample.gen_gridmet None
              Sample.json_loads [] w)) = 1.
Proof.
  apply (script_fails_before_jobs Sample.now Sample.cwd Sample.gen_gridmet
           None Sample.json_loads []).
  left. intros n Hn. vm_compute in Hn. injection Hn as <-. lia.
Defined.

(** ** The two dispatchers and a worker whose result depends on the job only *)

Section PureWorkers.

Context {J R W : Type}.

Implicit Types (p : ProcessPool J R W) (jobs : list J) (f : J -> outcome R).







End PureWorkers.








(** ** [catgdf] and [catshp] *)

Section FrameFacts.

Context {Row C : Type} `{Countable C}.

Implicit Types (g : Geo.GeoDataFrame Row C) (l : list (Geo.GeoDataFrame Row C)).

Lemma crs_count_one g0 l :
  Geo.crs_count (g0 :: l) = 1%nat
  <-> Forall (fun g => Geo.crs g = Geo.crs g0) l.
Proof.
  unfold Geo.crs_count. rewrite fmap_cons, list_to_set_cons. split.
  - intros [c Hc]%size_1_elem_of.
    assert (forall x, x ∈ ({[Geo.crs g0]} ∪ list_to_set (Geo.crs <$> l)
                            : gset (option C)) -> x = c) as Hone.
    { intros x Hx. rewrite Hc in Hx. by apply elem_of_singleton in Hx. }
    apply Forall_forall. intros g Hg.
    rewrite (Hone (Geo.crs g0)) by (apply elem_of_union_l; by apply elem_of_singleton).
    apply Hone, elem_of_union_r, elem_of_list_to_set.
    by apply list_elem_of_fmap_2.
  - intros Hall. rewrite Forall_forall in Hall.
    replace ({[Geo.crs g0]} ∪ list_to_set (Geo.crs <$> l))
      with ({[Geo.crs g0]} : gset (option C)); [apply size_singleton|].
    apply set_eq. intros x. rewrite elem_of_union, elem_of_singleton.
    split; [by left|]. intros [->|Hx]; [done|].
    apply elem_of_list_to_set, list_elem_of_fmap in Hx as [g [-> Hg]].
    by apply Hall.
Qed.

Lemma drop_empty_idemp l : Geo.drop_empty (Geo.drop_empty l) = Geo.drop_empty l.
Proof.
  unfold Geo.drop_empty. induction l as [|g l IH]; [done|].
  rewrite filter_cons. case_decide as Hg; [|done].
  by rewrite filter_cons_True, IH.
Qed.

Lemma drop_empty_app l1 l2 :
  Geo.drop_empty (l1 ++ l2) = Geo.drop_empty l1 ++ Geo.drop_empty l2.
Proof. apply filter_app. Qed.

Lemma concat_drop_empty l :
  concat (Geo.rows <$> Geo.drop_empty l) = concat (Geo.rows <$> l).
Proof.
  unfold Geo.drop_empty. induction l as [|g l IH]; [done|].
  rewrite filter_cons. case_decide as Hg; cbn; rewrite IH; [done|].
  unfold Geo.len in Hg.
  apply nil_length_inv in Hg. by rewrite Hg.
Qed.

(** [catgdf] in terms of the frames that are not empty: they must share
    the [crs] of the first of them. *)
Lemma catgdf_unfold l :
  Geo.catgdf l
  = match Geo.drop_empty l with
    | [] => Returned (Geo.Gdf [] None)
    | g0 :: rest =>
        if decide (Forall (fun g => Geo.crs g = Geo.crs g0) rest)
        then Returned (Geo.Gdf (concat (Geo.rows <$> l)) (Geo.crs g0))
        else Raised Geo.AssertionError
    end.
Proof.
  unfold Geo.catgdf. rewrite <- (concat_drop_empty l).
  destruct (Geo.drop_empty l) as [|g0 rest]; [done|].
  destruct (decide (Geo.crs_count (g0 :: rest) = 1%nat)) as [Hc|Hc];
    destruct (decide (Forall _ rest)) as [Hf|Hf]; try done.
  - destruct Hf. by apply crs_count_one.
  - destruct Hc. by apply crs_count_one.
Qed.

Lemma length_concat_rows l :
  length (concat (Geo.rows <$> l)) = sum_list_with Geo.len l.
Proof.
  induction l as [|g l IH]; [done|].
  cbn. rewrite length_app, IH. done.
Qed.

Lemma drop_empty_nil l :
  Geo.drop_empty l = [] <-> Forall (fun g => Geo.len g = 0%nat) l.
Proof.
  unfold Geo.drop_empty. induction l as [|g l IH]; [done|].
  rewrite filter_cons, Forall_cons. case_decide as Hg.
  - split; [done | by intros [? _]].
  - rewrite IH. split; [|by intros [_ ?]]. intros Hl. split; [|done].
    destruct (decide (Geo.len g = 0%nat)); [done | by destruct Hg].
Qed.

End FrameFacts.

(** X13. What [catgdf] returns holds the rows of all the frames it was given,
    in order, so as many rows as they have together; its [crs] is that
    of every frame that has rows; and when no frame has rows the result
    is the empty frame without a [crs], whatever [crs] the inputs had. *)
Theorem catgdf_result {Row C : Type} `{Countable C}
    (gdf_list : list (Geo.GeoDataFrame Row C)) (gdf : Geo.GeoDataFrame Row C) :
  Geo.catgdf gdf_list = Returned gdf ->
  Geo.rows gdf = concat (Geo.rows <$> gdf_list)
  /\ Geo.len gdf = sum_list_with Geo.len gdf_list
  /\ (forall g, g ∈ gdf_list -> Geo.len g <> 0%nat -> Geo.crs g = Geo.crs gdf)
  /\ (Forall (fun g => Geo.len g = 0%nat) gdf_list -> gdf = Geo.Gdf [] None).
Proof.
  rewrite catgdf_unfold.
  destruct (Geo.drop_empty gdf_list) as [|g0 rest] eqn:Hdrop.
  - intros [= <-]. apply drop_empty_nil in Hdrop as Hempty.
    assert (concat (Geo.rows <$> gdf_list) = []) as Hrows.
    { rewrite <- concat_drop_empty, Hdrop. done. }
    split_and!; [done | | | done].
    + unfold Geo.len at 1. cbn. by rewrite <- length_concat_rows, Hrows.
    + intros g Hg Hlen. rewrite Forall_forall in Hempty.
      by destruct Hlen; apply Hempty.
  - case_decide as Hall; [|done]. intros [= <-].
    split_and!; [done | apply length_concat_rows | |].
    + intros g Hg Hlen. cbn.
      assert (g ∈ g0 :: rest) as Hin.
      { rewrite <- Hdrop. by apply list_elem_of_filter. }
      apply elem_of_cons in Hin as [->|Hin]; [done|].
      rewrite Forall_forall in Hall. by apply Hall.
    + intros Hempty%drop_empty_nil. congruence.
Qed.

Lemma catgdf_result_witness :
  Geo.len (Geo.Gdf [1; 2; 3]%nat (Some 26913%positive)) = 3%nat.
Proof.
  destruct (catgdf_result
              [Geo.Gdf [1; 2]%nat (Some 26913%positive);
               Geo.Gdf [] (Some 4326%positive);
               Geo.Gdf [3]%nat (Some 26913%positive)]
              (Geo.Gdf [1; 2; 3]%nat (Some 26913%positive)))
    as (_ & Hlen & _).
  - vm_compute. reflexivity.
  - rewrite Hlen. reflexivity.
Defined.


(** X15. Dropping the frames without rows before calling [catgdf], as
    [catshp] does, changes nothing: [catshp] writes what [catgdf] makes
    of the frames as they were read, and writes nothing when reading or
    [catgdf] fails. *)
Theorem catshp_is_catgdf {Row C : Type} `{Countable C} (Store : Type)
    (read_dataframe : string -> Store -> outcome (Geo.GeoDataFrame Row C))
    (to_file : Geo.GeoDataFrame Row C -> string -> Store -> outcome Store)
    (gdf_list : list (Geo.GeoDataFrame Row C))
    (src_shp_list : list string) (dst_shp : string) (st : Store) :
  Geo.catgdf (Geo.drop_empty gdf_list) = Geo.catgdf gdf_list
  /\ Geo.catshp Store read_dataframe to_file src_shp_list dst_shp st
     = match Geo.read_all Store read_dataframe src_shp_list st with
       | Raised e => Raised e
       | Returned gdfs =>
           match Geo.catgdf gdfs with
           | Raised e => Raised e
           | Returned gdf => to_file gdf dst_shp st
           end
       end.
Proof.
  assert (forall l : list (Geo.GeoDataFrame Row C),
            Geo.catgdf (Geo.drop_empty l) = Geo.catgdf l) as Hdrop.
  { intros l. unfold Geo.catgdf. by rewrite drop_empty_idemp. }
  split; [apply Hdrop|]. unfold Geo.catshp.
  destruct (Geo.read_all _ _ _ _); [by rewrite Hdrop | done].
Qed.

Lemma catgdf_returned_inv {Row C : Type} `{Countable C}
    (l : list (Geo.GeoDataFrame Row C)) (g : Geo.GeoDataFrame Row C) :
  Geo.catgdf l = Returned g ->
  (Geo.drop_empty l = [] /\ concat (Geo.rows <$> l) = []
   /\ g = Geo.Gdf [] None)
  \/ (exists h r,
        Geo.drop_empty l = h :: r
        /\ Forall (fun x => Geo.crs x = Geo.crs h) r
        /\ g = Geo.Gdf (concat (Geo.rows <$> l)) (Geo.crs h)
        /\ Geo.len g <> 0%nat).
Proof.
  rewrite catgdf_unfold.
  destruct (Geo.drop_empty l) as [|h r] eqn:Hdrop.
  - intros [= <-]. left. split_and!; [done| |done].
    rewrite <- concat_drop_empty. by rewrite Hdrop.
  - case_decide as Hall; [|done]. intros [= <-]. right.
    exists h, r. split_and!; [done..|].
    assert (h ∈ Geo.drop_empty l) as Hh by (rewrite Hdrop; by left).
    unfold Geo.drop_empty in Hh.
    apply (list_elem_of_filter (fun g => Geo.len g <> 0%nat)) in Hh
      as [Hlen Hin].
    unfold Geo.len at 1. cbn [Geo.rows]. rewrite length_concat_rows.
    pose proof (sum_list_with_in h Geo.len l Hin). lia.
Qed.

Lemma drop_empty_cons_nonempty {Row C : Type} `{Countable C}
    (g : Geo.GeoDataFrame Row C) (l : list (Geo.GeoDataFrame Row C)) :
  Geo.len g <> 0%nat -> Geo.drop_empty (g :: l) = g :: Geo.drop_empty l.
Proof. intros Hg. unfold Geo.drop_empty. by rewrite filter_cons_True. Qed.

Lemma drop_empty_cons_empty {Row C : Type} `{Countable C}
    (g : Geo.GeoDataFrame Row C) (l : list (Geo.GeoDataFrame Row C)) :
  Geo.len g = 0%nat -> Geo.drop_empty (g :: l) = Geo.drop_empty l.
Proof.
  intros Hg. unfold Geo.drop_empty. rewrite filter_cons_False; [done|].
  by intros ?.
Qed.

(** X16. Concatenating in two stages gives what concatenating at once gives:
    for two lists of frames that [catgdf] accepts, [catgdf] of the two
    results is [catgdf] of the two lists put together, the assertion on
    the [crs] included. *)
Theorem catgdf_app {Row C : Type} `{Countable C}
    (l1 l2 : list (Geo.GeoDataFrame Row C)) (g1 g2 : Geo.GeoDataFrame Row C) :
  Geo.catgdf l1 = Returned g1 ->
  Geo.catgdf l2 = Returned g2 ->
  Geo.catgdf [g1; g2] = Geo.catgdf (l1 ++ l2).
Proof.
  intros H1 H2. rewrite (catgdf_unfold (l1 ++ l2)).
  rewrite drop_empty_app, fmap_app, concat_app.
  apply catgdf_returned_inv in H1
    as [(Hd1 & Hr1 & ->)|(h1 & r1 & Hd1 & Hall1 & -> & Hlen1)];
    apply catgdf_returned_inv in H2
      as [(Hd2 & Hr2 & ->)|(h2 & r2 & Hd2 & Hall2 & -> & Hlen2)];
    rewrite Hd1, Hd2; rewrite ?Hr1, ?Hr2.
  - done.
  - rewrite catgdf_unfold. rewrite drop_empty_cons_empty by done.
    rewrite (drop_empty_cons_nonempty _ []) by done.
    cbn [Geo.drop_empty filter list_filter app fmap list_fmap concat Geo.rows
           Geo.crs].
    rewrite decide_True by constructor.
    rewrite decide_True by done. by rewrite app_nil_r.
  - rewrite catgdf_unfold. rewrite drop_empty_cons_nonempty by done.
    rewrite drop_empty_cons_empty by done.
    cbn [Geo.drop_empty filter list_filter app fmap list_fmap concat Geo.rows
           Geo.crs].
    rewrite decide_True by constructor.
    rewrite !app_nil_r. by rewrite decide_True by done.
  - rewrite catgdf_unfold. rewrite drop_empty_cons_nonempty by done.
    rewrite (drop_empty_cons_nonempty _ []) by done.
    cbn [Geo.drop_empty filter list_filter app fmap list_fmap concat Geo.rows
           Geo.crs].
    destruct (decide (Geo.crs h2 = Geo.crs h1)) as [Heq|Hne].
    + rewrite decide_True by (by repeat constructor).
      rewrite decide_True; [by rewrite app_nil_r|].
      apply Forall_app. split; [done|]. constructor; [done|].
      eapply Forall_impl; [exact Hall2|]. intros x Hx. simpl in Hx. congruence.
    + rewrite decide_False.
      * rewrite decide_False; [done|].
        intros [_ Hbad]%Forall_app. by inversion Hbad.
      * intros Hbad. by inversion Hbad.
Qed.

Lemma catgdf_app_witness :
  Geo.catgdf [Geo.Gdf [1; 2]%nat (Some 26913%positive);
              Geo.Gdf [3]%nat (Some 26913%positive)]
  = Geo.catgdf ([Geo.Gdf [1]%nat (Some 26913%positive);
                 Geo.Gdf [2]%nat (Some 26913%positive)]
                ++ [Geo.Gdf [] None; Geo.Gdf [3]%nat (Some 26913%positive)]).
Proof.
  apply catgdf_app; vm_compute; reflexivity.
Defined.

(** ** [fill_grid_na] *)

(** X17. Whatever [fillnodata] does: when [fill_grid_na] returns with
    [fill_all] set, no [nan] is left in the result; and an array
    without [nan] is returned as it is, with or without [fill_all]. *)
Theorem fill_grid_na_filled {A : Type}
    (fillnodata : Geo.ndarray A -> list bool -> Z -> Geo.ndarray A)
    (fuel : nat) (arr r : Geo.ndarray A) (neighborhood : Z) (fill_all : bool) :
  Geo.fill_grid_na fillnodata fuel arr neighborhood fill_all = Some r ->
  (fill_all = true -> Geo.nan_count r = 0%nat)
  /\ (Geo.nan_count arr = 0%nat -> r = arr).
Proof.
  revert arr. induction fuel as [|fuel IH]; intros arr; [done|].
  cbn [Geo.fill_grid_na].
  destruct (Geo.nan_count arr =? 0)%nat eqn:Hnan.
  - intros [= <-]. apply Nat.eqb_eq in Hnan. done.
  - apply Nat.eqb_neq in Hnan. destruct fill_all; cbn [negb].
    + intros Hr. destruct (IH _ Hr) as [Hfilled _]. split; [done|].
      by intros Hzero.
    + intros [= <-]. split; [done | by intros Hzero].
Qed.

Lemma fill_grid_na_filled_witness :
  Geo.nan_count ([Some 1; Some 1; Some 3] : Geo.ndarray Z) = 0%nat.
Proof.
  destruct (fill_grid_na_filled
              (fun (arr : Geo.ndarray Z) _ _ => (fun c => Some (default 1 c)) <$> arr)
              5 [None; Some 1; Some 3] [Some 1; Some 1; Some 3] 128 true)
    as [Hfilled _].
  - reflexivity.
  - by apply Hfilled.
Defined.



(** X19. When a pass of [fillnodata] gives back an array that still has a
    [nan] as it was, as on an array with nothing but [nan] to fill
    from, [fill_grid_na] with [fill_all] never ends. *)
Theorem fill_grid_na_diverges {A : Type}
    (fillnodata : Geo.ndarray A -> list bool -> Z -> Geo.ndarray A)
    (arr : Geo.ndarray A) (neighborhood : Z) :
  Geo.nan_count arr <> 0%nat ->
  fillnodata arr (negb <$> Geo.isnan arr) neighborhood = arr ->
  forall fuel,
    Geo.fill_grid_na fillnodata fuel arr neighborhood true = None.
Proof.
  intros Hnan Hsame. induction fuel as [|fuel IH]; [done|].
  cbn [Geo.fill_grid_na negb].
  apply Nat.eqb_neq in Hnan. by rewrite Hnan, Hsame.
Qed.

Lemma fill_grid_na_diverges_witness :
  Geo.fill_grid_na (fun (arr : Geo.ndarray Z) _ _ => arr) 1000
    [None; None] 128 true = None.
Proof.
  apply (fill_grid_na_diverges (fun (arr : Geo.ndarray Z) _ _ => arr)
           [None; None] 128).
  - discriminate.
  - reflexivity.
Defined.

(** ** The logger of the script *)

Section LoggingFacts.

Import Logging.

Variable asctime : nat -> string.

Implicit Types (st : state) (hs : list Handler) (line : bytes).

Lemma streams_app hs1 hs2 :
  streams (hs1 ++ hs2) = (streams hs1 + streams hs2)%nat.
Proof.
  induction hs1 as [|[|q] hs1 IH]; cbn [app streams]; lia.
Qed.

Lemma file_handlers_app p hs1 hs2 :
  file_handlers p (hs1 ++ hs2)
  = (file_handlers p hs1 + file_handlers p hs2)%nat.
Proof.
  induction hs1 as [|[|q] hs1 IH]; cbn [app file_handlers]; [lia|lia|].
  destruct (decide (q = p)); lia.
Qed.

Lemma content_append_same (m : gmap path node) p line :
  Fs.content (Fs.append p line m) p = Fs.content m p ++ line.
Proof.
  unfold Fs.append. unfold Fs.content at 1. by rewrite lookup_insert_eq.
Qed.

Lemma content_append_other (m : gmap path node) p q line :
  q <> p -> Fs.content (Fs.append q line m) p = Fs.content m p.
Proof.
  intros Hne. unfold Fs.append. unfold Fs.content at 1.
  by rewrite lookup_insert_ne.
Qed.

Lemma replicate_snoc_join (n : nat) line :
  mjoin (replicate (S n) line) = mjoin (replicate n line) ++ line.
Proof.
  induction n as [|n IH]; [cbn; by rewrite app_nil_r|].
  simpl in *. by rewrite <- app_assoc, <- IH.
Qed.

(** What the handlers of a logger do with one line. *)
Lemma emit_all line hs (e : bytes) (m : gmap path node) :
  fst (foldl (emit line) (e, m) hs)
  = e ++ mjoin (replicate (streams hs) line)
  /\ forall p,
       Fs.content (snd (foldl (emit line) (e, m) hs)) p
       = Fs.content m p ++ mjoin (replicate (file_handlers p hs) line).
Proof.
  revert e m. induction hs as [|[|q] hs IH]; intros e m.
  - cbn. split; [by rewrite app_nil_r|]. intros p. by rewrite app_nil_r.
  - cbn [foldl emit fst snd streams file_handlers].
    destruct (IH (e ++ line) m) as [H1 H2]. split; [|exact H2].
    etrans; [exact H1|]. simpl. by rewrite <- app_assoc.
  - cbn [foldl emit fst snd streams file_handlers].
    destruct (IH e (Fs.append q line m)) as [H1 H2]. split; [exact H1|].
    intros p. etrans; [exact (H2 p)|]. destruct (decide (q = p)) as [->|Hne].
    + rewrite content_append_same. simpl. by rewrite <- app_assoc.
    + by rewrite content_append_other.
Qed.

Lemma emit_all_lookup line hs (e : bytes) (m : gmap path node) p :
  file_handlers p hs = 0%nat ->
  snd (foldl (emit line) (e, m) hs) !! p = m !! p.
Proof.
  revert e m. induction hs as [|[|q] hs IH]; intros e m Hnone; [done| |].
  - cbn [foldl emit fst snd]. by apply IH.
  - cbn [foldl emit fst snd]. cbn [file_handlers] in Hnone.
    destruct (decide (q = p)) as [->|Hne]; [discriminate|].
    rewrite IH by done. unfold Fs.append. by rewrite lookup_insert_ne.
Qed.

(** What [init_logger] leaves behind, whether it returns or raises. *)
Lemma init_logger_state p lvl st :
  log_level (logger (snd (init_logger p lvl st))) = lvl
  /\ stderr (snd (init_logger p lvl st)) = stderr st
  /\ made (snd (init_logger p lvl st)) = made st
  /\ exists tail,
       handlers (logger (snd (init_logger p lvl st)))
       = handlers (logger st) ++ StreamHandler :: tail
       /\ (tail = [] \/ exists q, p = Some q /\ q <> [] /\ tail = [FileHandler q])
       /\ (tail = [] <-> (truthy p = false
                          \/ exists e, fst (init_logger p lvl st) = Raised e)).
Proof.
  unfold init_logger. destruct p as [[|c q]|]; cbn [truthy from_option id].
  - cbn. repeat split; try done. exists []. repeat split; auto.
  - set (file := c :: q).
    destruct (files st !! file) as [[|b]|] eqn:Hf; cbn [snd fst logger log_level
      stderr made handlers].
    + repeat split; try done. exists []. split; [done|]. split; [by left|].
      split; [eauto|done].
    + repeat split; try done. exists [FileHandler file].
      split; [by rewrite <- app_assoc|]. split.
      * right. exists file. by repeat split.
      * split; [discriminate|]. intros [?|[e ?]]; discriminate.
    + destruct (Fs.parent_error (files st) file) as [e|] eqn:He;
        cbn [snd fst logger log_level stderr made handlers].
      * repeat split; try done. exists []. split; [done|]. split; [by left|].
        split; [eauto|done].
      * repeat split; try done. exists [FileHandler file].
        split; [by rewrite <- app_assoc|]. split.
        -- right. exists file. by repeat split.
        -- split; [discriminate|]. intros [?|[e ?]]; discriminate.
  - cbn. repeat split; try done. exists []. repeat split; auto.
Qed.

End LoggingFacts.

Lemma init_logger_times_state (k : nat) (lvl : Z) (st : Logging.state) :
  Logging.handlers (Logging.logger (Logging.init_logger_times k None lvl st))
  = Logging.handlers (Logging.logger st) ++ replicate k Logging.StreamHandler
  /\ Logging.stderr (Logging.init_logger_times k None lvl st)
     = Logging.stderr st
  /\ Logging.files (Logging.init_logger_times k None lvl st)
     = Logging.files st
  /\ Logging.made (Logging.init_logger_times k None lvl st) = Logging.made st
  /\ (k <> 0%nat ->
      Logging.log_level
        (Logging.logger (Logging.init_logger_times k None lvl st)) = lvl).
Proof.
  unfold Logging.init_logger_times.
  set (f := fun s => snd (Logging.init_logger None lvl s)).
  induction k as [|k (Hh & He & Hf & Hm & _)].
  - cbn. by rewrite app_nil_r.
  - rewrite Nat.iter_succ. set (s := Nat.iter k f st) in *. unfold f.
    cbn [Logging.init_logger Logging.truthy snd Logging.logger
      Logging.handlers Logging.stderr Logging.files Logging.made
      Logging.log_level].
    rewrite Hh, He, Hf, Hm, <- app_assoc.
    replace (replicate k Logging.StreamHandler ++ [Logging.StreamHandler])
      with (replicate (S k) Logging.StreamHandler); [done|].
    clear. induction k as [|k IH]; [done|]. cbn in *. by rewrite <- IH.
Qed.

Lemma streams_replicate (k : nat) :
  Logging.streams (replicate k Logging.StreamHandler) = k.
Proof. induction k as [|k IH]; cbn; congruence. Qed.

(** X20. [init_logger] adds a console handler at every call and never
    removes one: after [k+1] calls without a path, a record at or above
    the level is printed on standard error once for each console handler
    the logger had before and once for each call. *)
Theorem init_logger_repeats_records (asctime : nat -> string) (k : nat)
    (lvl : Z) (l : level) (msg : string) (st : Logging.state) :
  lvl <= Logging.levelno l ->
  Logging.stderr
    (Logging.log asctime l msg (Logging.init_logger_times (S k) None lvl st))
  = Logging.stderr st
    ++ mjoin (replicate
                (Logging.streams (Logging.handlers (Logging.logger st)) + S k)
                (Logging.format asctime (Logging.made st) l msg)).
Proof.
  intros Hlvl.
  destruct (init_logger_times_state (S k) lvl st)
    as (Hh & He & Hf & Hm & Hl).
  specialize (Hl ltac:(discriminate)).
  unfold Logging.log. rewrite Hl.
  destruct (Z.ltb_spec (Logging.levelno l) lvl) as [|_]; [lia|].
  rewrite Hh, He, Hf, Hm.
  destruct (Logging.handlers (Logging.logger st) ++
            replicate (S k) Logging.StreamHandler) as [|h hs] eqn:Hhs.
  { apply (f_equal length) in Hhs. rewrite length_app in Hhs.
    cbn in Hhs. lia. }
  rewrite <- Hhs. cbn [Logging.stderr].
  etrans; [apply emit_all|].
  by rewrite streams_app, streams_replicate.
Qed.

Lemma init_logger_repeats_records_witness :
  Logging.stderr
    (Logging.log (fun _ => "12:00"%string) WARNING "late"
       (Logging.init_logger_times 3 None 20
          (Logging.State Logging.root [] ∅ 0)))
  = [] ++ mjoin (replicate (0 + 3)
                   (Logging.format (fun _ => "12:00"%string) 0 WARNING "late")).
Proof.
  apply (init_logger_repeats_records (fun _ => "12:00"%string) 2 20 WARNING
           "late" (Logging.State Logging.root [] ∅ 0)).
  vm_compute. discriminate.
Defined.

(** X21. [init_logger] sets the level before anything else: whatever the
    call gives, also when opening the log file raised, a record below
    the level changes nothing, neither standard error nor a file nor the
    count of records. *)
Theorem init_logger_level_filters (asctime : nat -> string)
    (p : option path) (lvl : Z) (l : level) (msg : string)
    (st : Logging.state) :
  Logging.levelno l < lvl ->
  Logging.log asctime l msg (snd (Logging.init_logger p lvl st))
  = snd (Logging.init_logger p lvl st).
Proof.
  intros Hlvl. destruct (init_logger_state p lvl st) as (Hl & _).
  unfold Logging.log. rewrite Hl.
  by destruct (Z.ltb_spec (Logging.levelno l) lvl) as [_|]; [|lia].
Qed.

Lemma init_logger_level_filters_witness :
  Logging.log (fun _ => "12:00"%string) INFO "Starting..."
    (snd (Logging.init_logger (Some ["run.log"%string]) 30
            (Logging.State Logging.root [] ∅ 0)))
  = snd (Logging.init_logger (Some ["run.log"%string]) 30
           (Logging.State Logging.root [] ∅ 0)).
Proof.
  apply (init_logger_level_filters (fun _ => "12:00"%string)
           (Some ["run.log"%string]) 30 INFO "Starting..."
           (Logging.State Logging.root [] ∅ 0)).
  vm_compute. reflexivity.
Defined.

(** X22. With a path, on a logger that had no handler, a record at or
    above the level is written once on standard error and, as the same
    bytes, at the end of the file, whose earlier content stays (mode
    ['a']); no other path changes. *)
Theorem init_logger_file_mirrors_console (asctime : nat -> string)
    (q : path) (lvl : Z) (l : level) (msg : string)
    (st st' : Logging.state) (lg : Logging.Logger) :
  q <> [] ->
  Logging.handlers (Logging.logger st) = [] ->
  Logging.init_logger (Some q) lvl st = (Returned lg, st') ->
  lvl <= Logging.levelno l ->
  Logging.stderr (Logging.log asctime l msg st')
  = Logging.stderr st ++ Logging.format asctime (Logging.made st) l msg
  /\ Fs.content (Logging.files (Logging.log asctime l msg st')) q
     = Fs.content (Logging.files st) q
       ++ Logging.format asctime (Logging.made st) l msg
  /\ forall p, p <> q ->
       Logging.files (Logging.log asctime l msg st') !! p
       = Logging.files st !! p.
Proof.
  intros Hq Hfresh Hinit Hlvl.
  assert (exists m,
            st' = Logging.State
                    (Logging.RootLogger lvl
                       [Logging.StreamHandler; Logging.FileHandler q])
                    (Logging.stderr st) m (Logging.made st)
            /\ Fs.content m q = Fs.content (Logging.files st) q
            /\ forall p, p <> q -> m !! p = Logging.files st !! p)
    as (m & -> & Hc & Hm).
  { unfold Logging.init_logger in Hinit. rewrite Hfresh in Hinit.
    destruct q as [|c q]; [done|].
    cbn [Logging.truthy from_option id Logging.handlers app] in Hinit.
    match type of Hinit with
    | context [match ?x with _ => _ end] => destruct x as [[|b]|] eqn:Hf
    end.
    - discriminate.
    - injection Hinit as _ <-. eauto.
    - change (Logging.files st !! ((c :: q) : path) = None) in Hf.
      destruct (Fs.parent_error (Logging.files st) (c :: q));
        [discriminate|].
      injection Hinit as _ <-. eexists. split; [reflexivity|]. split.
      + unfold Fs.content. by rewrite lookup_insert_eq, Hf.
      + intros p Hp. by rewrite lookup_insert_ne. }
  unfold Logging.log.
  cbn [Logging.logger Logging.log_level Logging.handlers Logging.stderr
       Logging.files Logging.made].
  destruct (Z.ltb_spec (Logging.levelno l) lvl) as [|_]; [lia|].
  cbn [foldl Logging.emit fst snd Logging.stderr Logging.files].
  split; [done|]. split.
  - by rewrite content_append_same, Hc.
  - intros p Hp. unfold Fs.append. rewrite lookup_insert_ne by done.
    by apply Hm.
Qed.

Lemma init_logger_file_mirrors_console_witness :
  Logging.stderr
    (Logging.log (fun _ => "12:00"%string) INFO "Starting..."
       (snd (Logging.init_logger (Some ["run.log"%string]) 20
               (Logging.State Logging.root []
                  {[ ["run.log"%string] := File (Utf8.encode "old") ]} 0))))
  = [] ++ Logging.format (fun _ => "12:00"%string) 0 INFO "Starting..."
  /\ Fs.content
       (Logging.files
          (Logging.log (fun _ => "12:00"%string) INFO "Starting..."
             (snd (Logging.init_logger (Some ["run.log"%string]) 20
                     (Logging.State Logging.root []
                        {[ ["run.log"%string] := File (Utf8.encode "old") ]}
                        0)))))
       ["run.log"%string]
     = Fs.content {[ ["run.log"%string] := File (Utf8.encode "old") ]}
         ["run.log"%string]
       ++ Logging.format (fun _ => "12:00"%string) 0 INFO "Starting..."
  /\ forall p : path, p <> ["run.log"%string] ->
       Logging.files
         (Logging.log (fun _ => "12:00"%string) INFO "Starting..."
            (snd (Logging.init_logger (Some ["run.log"%string]) 20
                    (Logging.State Logging.root []
                       {[ ["run.log"%string] := File (Utf8.encode "old") ]}
                       0))))
       !! p
       = ({[ ["run.log"%string] := File (Utf8.encode "old") ]}
            : gmap path node) !! p.
Proof.
  refine (init_logger_file_mirrors_console (fun _ => "12:00"%string)
           ["run.log"%string] 20 INFO "Starting..."
           (Logging.State Logging.root []
              {[ ["run.log"%string] := File (Utf8.encode "old") ]} 0)
           (snd (Logging.init_logger (Some ["run.log"%string]) 20
                   (Logging.State Logging.root []
                      {[ ["run.log"%string] := File (Utf8.encode "old") ]}
                      0)))
           (Logging.RootLogger 20
              [Logging.StreamHandler;
               Logging.FileHandler ["run.log"%string]]) _ _ _ _).
  - discriminate.
  - reflexivity.
  - reflexivity.
  - vm_compute. discriminate.
Defined.

(** X23. When [init_logger] raises, which only opening the log file can
    make it do, the level has been set and the console handler has been
    added all the same, and no file handler; nothing has been written
    and no file has been made. *)
Theorem init_logger_raise_keeps_console (p : option path) (lvl : Z)
    (st st' : Logging.state) (e : exn) :
  Logging.init_logger p lvl st = (Raised e, st') ->
  st' = Logging.State
          (Logging.RootLogger lvl
             (Logging.handlers (Logging.logger st)
              ++ [Logging.StreamHandler]))
          (Logging.stderr st) (Logging.files st) (Logging.made st)
  /\ (exists q, p = Some q /\ q <> []
                /\ forall b, Logging.files st !! q <> Some (File b))
  /\ (e = IsADirectoryError \/ e = NotADirectoryError
      \/ e = FileNotFoundError).
Proof.
  unfold Logging.init_logger. destruct p as [[|c q]|];
    cbn [Logging.truthy from_option id]; [discriminate| |discriminate].
  match goal with
  | |- context [match ?x with _ => _ end] => destruct x as [[|b]|] eqn:Hf
  end; change (Logging.files st !! ((c :: q) : path) = None) in Hf
       || change (Logging.files st !! ((c :: q) : path) = Some Dir) in Hf
       || idtac.
  - intros [= <- <-]. split; [done|]. split; [|auto].
    exists (c :: q). rewrite Hf. by repeat split.
  - discriminate.
  - unfold Fs.parent_error.
    destruct (Fs.is_dir (Logging.files st) (Fs.parent (c :: q)));
      [discriminate|].
    destruct (Fs.exists_ (Logging.files st) (Fs.parent (c :: q)));
      intros [= <- <-]; (split; [done|]); (split; [|auto]);
      exists (c :: q); rewrite Hf; by repeat split.
Qed.

Lemma init_logger_raise_keeps_console_witness :
  snd (Logging.init_logger (Some ["logs"%string]) 20
         (Logging.State Logging.root [] {[ ["logs"%string] := Dir ]} 0))
  = Logging.State
      (Logging.RootLogger 20 ([] ++ [Logging.StreamHandler]))
      [] {[ ["logs"%string] := Dir ]} 0
  /\ (exists q, Some ["logs"%string] = Some q /\ q <> []
                /\ forall b,
                     ({[ ["logs"%string] := Dir ]} : gmap path node) !! q
                     <> Some (File b))
  /\ (IsADirectoryError = IsADirectoryError
      \/ IsADirectoryError = NotADirectoryError
      \/ IsADirectoryError = FileNotFoundError).
Proof.
  refine (init_logger_raise_keeps_console (Some ["logs"%string]) 20
            (Logging.State Logging.root [] {[ ["logs"%string] := Dir ]} 0)
            (snd (Logging.init_logger (Some ["logs"%string]) 20
                    (Logging.State Logging.root []
                       {[ ["logs"%string] := Dir ]} 0)))
            IsADirectoryError _).
  reflexivity.
Defined.

(** X24. [init_logger] writes nothing: standard error is as before, and
    every path holds what it held, except that the log file is made,
    empty, when it did not exist. *)
Theorem init_logger_keeps_contents (p : option path) (lvl : Z)
    (st : Logging.state) (q : path) :
  Logging.stderr (snd (Logging.init_logger p lvl st)) = Logging.stderr st
  /\ Fs.content (Logging.files (snd (Logging.init_logger p lvl st))) q
     = Fs.content (Logging.files st) q
  /\ (Logging.files (snd (Logging.init_logger p lvl st)) !! q
      = Logging.files st !! q
      \/ (p = Some q /\ Logging.files st !! q = None
          /\ Logging.files (snd (Logging.init_logger p lvl st)) !! q
             = Some (File []))).
Proof.
  unfold Logging.init_logger. destruct p as [[|c p]|];
    cbn [Logging.truthy from_option id]; [by auto| |by auto].
  match goal with
  | |- context [match ?x with _ => _ end] => destruct x as [[|b]|] eqn:Hf
  end; [by auto..|].
  change (Logging.files st !! ((c :: p) : path) = None) in Hf.
  destruct (Fs.parent_error (Logging.files st) (c :: p)); [by auto|].
  cbn [snd Logging.stderr Logging.files]. split; [done|].
  destruct (decide (q = c :: p)) as [->|Hne].
  - split.
    + unfold Fs.content. by rewrite lookup_insert_eq, Hf.
    + right. by rewrite lookup_insert_eq.
  - unfold Fs.content. rewrite lookup_insert_ne by done. auto.
Qed.
